(** * Browser automation for the plot digitiser: a shallow embedding of [app.py]

    The script drives a browser through a fixed calibration replay.  Its one
    numeric function, [convert_original_coor_to_current], projects a pixel of
    the original image to a pointer offset relative to the centre of the
    rendered element; the rest sequences browser commands.

    Conventions of the embedding:
    - Python numbers are modelled by their exact values: [int] as [Z], and
      the [float] produced by true division [/] as a rational [Q] (rounding
      of binary floating point is not modelled);
    - [//] on integers is floor division, [Z.div];
    - exceptions are values of [exn]; a computation that may raise returns a
      sum [exn + A];
    - the browser is an explicit state: what the page answers to lookups, the
      contents of its text inputs and the log of the commands it received;
    - a chain [move_to_element(..).move_by_offset(x, y).click().perform()]
      is one committed click carrying the offset it was given;
    - where a property depends on the rounding, the overflow or the NaN of
      binary64, the projector is also given in primitive floats,
      [convert_binary64]. *)

From stdpp Require Import gmap strings list.
From Stdlib Require Import Ascii ZArith QArith Qround Lia DecimalString DecimalPos.
From Stdlib Require Import PrimFloat Uint63.

Local Open Scope Z_scope.

(** ** Exceptions *)

Inductive exn : Type :=
| ZeroDivisionError
| TypeError
| NoSuchElementException
| TimeoutException.

(** ** Calibration data ([Point], [UploadedImage], [initializeImageObj]) *)

(** The axis values are annotated [float] and given as integer literals;
    they are integers here, and [str] below is the text of an [int]. *)

Record Point : Type := mkPoint { pt_x : Q; pt_y : Q }.

Record UploadedImage : Type := mkUploadedImage {
  im_pic_name : string;
  im_image_width : Z;
  im_xAxis_point1 : Point;
  im_xAxis_point2 : Point;
  im_yAxis_point1 : Point;
  im_yAxis_point2 : Point;
  im_xAxisValue_p1 : Z;
  im_xAxisValue_p2 : Z;
  im_yAxisValue_p1 : Z;
  im_yAxisValue_p2 : Z;
  im_clickedPoints : list Point
}.

(** [Point(x, y)] with integer literals, as the script writes them. *)
Definition PointZ (x y : Z) : Point := mkPoint (inject_Z x) (inject_Z y).

Definition initializeImageObj : UploadedImage :=
  {| im_pic_name := "1.jpg";
     im_image_width := 784;
     im_xAxis_point1 := PointZ 127 581;
     im_xAxis_point2 := PointZ 735 400;
     im_yAxis_point1 := PointZ 262 621;
     im_yAxis_point2 := PointZ 192 241;
     im_xAxisValue_p1 := 0;
     im_xAxisValue_p2 := 10;
     im_yAxisValue_p1 := 0;
     im_yAxisValue_p2 := 100;
     im_clickedPoints :=
       [ PointZ 113 505; PointZ 99 429; PointZ 85 354;
         PointZ 234 469; PointZ 220 393; PointZ 206 318;
         PointZ 356 433; PointZ 342 357; PointZ 328 281 ] |}.

(** ** Rendered geometry

    Selenium's [element.size] and [element.location] are dictionaries with
    the fixed keys [width], [height] and [x], [y]; they are records here. *)

Record Size : Type := mkSize { width : Z; height : Z }.
Record Location : Type := mkLocation { loc_x : Z; loc_y : Z }.

(** ** The coordinate projector *)

(** [convert_original_coor_to_current] of [ImageAutomation].  The attributes
    [image_location], [image_size] and [border_size] of the object are
    Python [None] until [find_image_element] assigns them, so each is an
    [option] here: subscripting [None] and [2 * None] raise [TypeError].
    True division by a zero [original_image_width] raises
    [ZeroDivisionError].  [image_location] is received and never read. *)
Definition convert_original_coor_to_current
    (original_coor : Q * Q) (original_image_width : Z)
    (image_location : option Location) (image_size : option Size)
    (border_size : option Z) : exn + (Q * Q) :=
  match image_size with
  | None => inl TypeError
  | Some image_size =>
  match border_size with
  | None => inl TypeError
  | Some border_size =>
      if original_image_width =? 0 then inl ZeroDivisionError
      else
        let aspect_ratio :=
          (inject_Z (width image_size - 2 * border_size)
             / inject_Z original_image_width)%Q in
        let X0 := fst original_coor in
        let Y0 := snd original_coor in
        let x := ((X0 - 1) * aspect_ratio
                  - inject_Z (width image_size / 2) + 1
                  + inject_Z border_size)%Q in
        let y := ((Y0 - 1) * aspect_ratio
                  - inject_Z (height image_size / 2) + 1
                  + inject_Z border_size)%Q in
        inr (x, y)
  end
  end.

(** ** The projector in binary64

    Python's [float] is IEEE binary64, which primitive floats compute
    exactly.  For integers of magnitude at most 2^53 the conversion of an
    [int] operand to [float] is exact and the true division of two such
    integers is the float quotient of their conversions; [exact_int] names
    that range.  The coordinates are floats, as [Point] annotates them (an
    integer coordinate in that range is its float). *)




(** ** The border pattern [\b(\d+)px\b]

    [re.search] tries the pattern at every start position from the left and
    returns the first match.  Strings are lists of ASCII characters; [\d] is
    [0-9] and [\w] is [[A-Za-z0-9_]]. *)

Definition is_digit (c : ascii) : bool :=
  let n := nat_of_ascii c in (48 <=? n)%nat && (n <=? 57)%nat.

Definition is_word (c : ascii) : bool :=
  let n := nat_of_ascii c in
  is_digit c
  || ((65 <=? n)%nat && (n <=? 90)%nat)
  || ((97 <=? n)%nat && (n <=? 122)%nat)
  || (n =? 95)%nat.

Definition is_word_opt (o : option ascii) : bool :=
  match o with Some c => is_word c | None => false end.

(** [\b]: exactly one of the two neighbours is a word character; the start
    and the end of the string count as non-word. *)
Definition word_boundary (prev next : option ascii) : bool :=
  xorb (is_word_opt prev) (is_word_opt next).

(** [px\b] at the head of [s]. *)
Definition match_px (s : list ascii) : bool :=
  match s with
  | c1 :: c2 :: rest =>
      Ascii.eqb c1 "p" && Ascii.eqb c2 "x" && word_boundary (Some c2) (head rest)
  | _ => false
  end.

(** [(\d+)px\b] at the head of [s], returning group 1.  The quantifier is
    greedy: a further digit is tried first, and the matcher backtracks to
    the shorter run when the continuation fails. *)
Fixpoint match_digits_px (s : list ascii) : option (list ascii) :=
  match s with
  | c :: s' =>
      if is_digit c then
        match match_digits_px s' with
        | Some ds => Some (c :: ds)
        | None => if match_px s' then Some [c] else None
        end
      else None
  | [] => None
  end.

(** The whole pattern at one position, [prev] being the character before. *)
Definition match_here (prev : option ascii) (s : list ascii) : option (list ascii) :=
  if word_boundary prev (head s) then match_digits_px s else None.

Fixpoint search_from (prev : option ascii) (s : list ascii) : option (list ascii) :=
  match match_here prev s with
  | Some ds => Some ds
  | None =>
      match s with
      | [] => None
      | c :: s' => search_from (Some c) s'
      end
  end.

Definition re_search (border_style : string) : option (list ascii) :=
  search_from None (String.list_ascii_of_string border_style).

(** [int] on a string of decimal digits. *)
Definition digit_value (c : ascii) : Z := Z.of_nat (nat_of_ascii c) - 48.

Definition int_of_digits (ds : list ascii) : Z :=
  fold_left (fun acc c => 10 * acc + digit_value c) ds 0.

(** The value [find_image_element] stores in [border_size] for a computed
    style: the attribute is assigned only under [if match:]. *)
Definition parse_border (old : option Z) (border_style : string) : option Z :=
  match re_search border_style with
  | Some ds => Some (int_of_digits ds)
  | None => old
  end.

(** ** The browser

    The web application and the driver are external.  The state below holds
    what the page answers (which elements exist, whether the upload alert
    shows up within the wait, the geometry and computed border of the
    uploaded image), the contents of its inputs, and the log of the actions
    the script performed, oldest first. *)

Inductive By : Type := ID | CLASS_NAME.

Record WebElement : Type := mkWebElement { el_by : By; el_value : string }.

Inductive action : Type :=
| Get (url : string)
| MaximizeWindow
| Sleep (seconds : Z)
| SendKeys (el : WebElement) (text : string)
| AcceptAlert
| Click (el : option WebElement) (xoffset yoffset : Q)
| Clear (el : WebElement)
| PrintLocation (l : option Location)
| PrintSize (s : option Size)
| PrintBorderSize (b : option Z)
| Input (prompt : string)
| Quit.

Record Browser : Type := mkBrowser {
  page_ids : gset string;
  page_classes : gset string;
  alert_appears : bool;
  img_location : Location;
  img_size : Size;
  img_border : string;
  os_getcwd : string;
  inputs : gmap string string;
  log : list action
}.

Definition with_log (b : Browser) (l : list action) : Browser :=
  mkBrowser (page_ids b) (page_classes b) (alert_appears b) (img_location b)
            (img_size b) (img_border b) (os_getcwd b) (inputs b) l.

Definition with_inputs (b : Browser) (i : gmap string string) : Browser :=
  mkBrowser (page_ids b) (page_classes b) (alert_appears b) (img_location b)
            (img_size b) (img_border b) (os_getcwd b) i (log b).

(** Computations on the browser that may raise. *)
Definition M (A : Type) : Type := Browser -> (exn + A) * Browser.

#[export] Instance M_ret : MRet M := fun A a b => (inr a, b).
#[export] Instance M_bind : MBind M := fun A B f m b =>
  match m b with
  | (inl e, b') => (inl e, b')
  | (inr a, b') => f a b'
  end.

Definition raise {A : Type} (e : exn) : M A := fun b => (inl e, b).
Definition lift {A : Type} (r : exn + A) : M A := fun b => (r, b).
Definition emit (a : action) : M unit := fun b => (inr tt, with_log b (log b ++ [a])).
Definition ask : M Browser := fun b => (inr b, b).

(** A [for] loop whose body may raise. *)
Fixpoint for_each {A : Type} (l : list A) (body : A -> M unit) : M unit :=
  match l with
  | [] => mret tt
  | a :: l' => body a ;; for_each l' body
  end.

Definition find_element (by' : By) (value : string) : M WebElement :=
  b ← ask;
  if bool_decide (value ∈ match by' with ID => page_ids b | CLASS_NAME => page_classes b end)
  then mret (mkWebElement by' value)
  else raise NoSuchElementException.

Definition input_value (b : Browser) (id : string) : string :=
  default "" (inputs b !! id).

Definition set_input (id : string) (f : string -> string) : M unit :=
  fun b => (inr tt, with_inputs b (<[id := f (input_value b id)]> (inputs b))).

(** Typing into an input appends to its content; [clear] empties it. *)
Definition send_keys (el : WebElement) (text : string) : M unit :=
  emit (SendKeys el text) ;;
  set_input (el_value el) (fun old => old +:+ text).

Definition clear (el : WebElement) : M unit :=
  emit (Clear el) ;;
  set_input (el_value el) (fun _ => "").

(** [move_to_element(el).move_by_offset(x, y).click().perform()]: one
    committed pointer action. *)
Definition click_at (el : option WebElement) (x y : Q) : M unit :=
  emit (Click el x y).

(** [f"{n}"] for an [int]. *)
Definition str (n : Z) : string := NilEmpty.string_of_int (Z.to_int n).

(** ** The [ImageAutomation] object *)

Record ImageAutomation : Type := mkImageAutomation {
  driver_path : string;
  web_address : string;
  pic_name : string;
  original_image_width : Z;
  original_axes_points : list (Q * Q);
  xAxisValue_p1 : Z;
  xAxisValue_p2 : Z;
  yAxisValue_p1 : Z;
  yAxisValue_p2 : Z;
  clickedPoints : list (Q * Q);
  image_element : option WebElement;
  image_location : option Location;
  image_size : option Size;
  border_size : option Z
}.

Definition init (driver_path web_address : string) (originalImageObj : UploadedImage)
  : ImageAutomation :=
  {| driver_path := driver_path;
     web_address := web_address;
     pic_name := im_pic_name originalImageObj;
     original_image_width := im_image_width originalImageObj;
     original_axes_points :=
       map (fun point => (pt_x point, pt_y point))
           [im_xAxis_point1 originalImageObj; im_xAxis_point2 originalImageObj;
            im_yAxis_point1 originalImageObj; im_yAxis_point2 originalImageObj];
     xAxisValue_p1 := im_xAxisValue_p1 originalImageObj;
     xAxisValue_p2 := im_xAxisValue_p2 originalImageObj;
     yAxisValue_p1 := im_yAxisValue_p1 originalImageObj;
     yAxisValue_p2 := im_yAxisValue_p2 originalImageObj;
     clickedPoints :=
       map (fun point => (pt_x point, pt_y point)) (im_clickedPoints originalImageObj);
     image_element := None;
     image_location := None;
     image_size := None;
     border_size := None |}.

Definition upload_image (file_input_element : WebElement) (pic_full_path : string) : M unit :=
  send_keys file_input_element pic_full_path.

Definition accept_alert : M unit :=
  b ← ask;
  if alert_appears b then emit AcceptAlert else raise TimeoutException.

(** The object after the four assignments of [find_image_element]. *)
Definition set_geometry (self : ImageAutomation) (el : WebElement)
    (location : Location) (size : Size) (border_style : string) : ImageAutomation :=
  {| driver_path := driver_path self;
     web_address := web_address self;
     pic_name := pic_name self;
     original_image_width := original_image_width self;
     original_axes_points := original_axes_points self;
     xAxisValue_p1 := xAxisValue_p1 self;
     xAxisValue_p2 := xAxisValue_p2 self;
     yAxisValue_p1 := yAxisValue_p1 self;
     yAxisValue_p2 := yAxisValue_p2 self;
     clickedPoints := clickedPoints self;
     image_element := Some el;
     image_location := Some location;
     image_size := Some size;
     border_size := parse_border (border_size self) border_style |}.

Definition find_image_element (self : ImageAutomation) : M ImageAutomation :=
  el ← find_element CLASS_NAME "uploaded-image";
  b ← ask;
  mret (set_geometry self el (img_location b) (img_size b) (img_border b)).

(** The body shared by the two loops of [perform_actions]. *)
Definition click_point (self : ImageAutomation) (coor : Q * Q) : M unit :=
  xy ← lift (convert_original_coor_to_current coor (original_image_width self)
               (image_location self) (image_size self) (border_size self));
  click_at (image_element self) (fst xy) (snd xy).

(** The axis-value entry step of [perform_actions] (the statements between
    the two loops). *)
Definition enter_axis_values (self : ImageAutomation) : M unit :=
  x_axis_p2 ← find_element ID "x-axis-p2";
  clear x_axis_p2 ;;
  send_keys x_axis_p2 (str (xAxisValue_p2 self)) ;;
  y_axis_p2 ← find_element ID "y-axis-p2";
  clear y_axis_p2 ;;
  send_keys x_axis_p2 (str (yAxisValue_p2 self)).

Definition perform_actions (self : ImageAutomation) : M unit :=
  for_each (original_axes_points self) (click_point self) ;;
  enter_axis_values self ;;
  for_each (clickedPoints self) (click_point self).

Section Run.

(** [os.path.join] of the platform the script runs on. *)
Variable os_path_join : string -> string -> string.

Definition run (self : ImageAutomation) : M unit :=
  emit (Get (web_address self)) ;;
  emit MaximizeWindow ;;
  emit (Sleep 1) ;;
  file_input ← find_element ID "file-upload";
  b ← ask;
  let current_dir := os_getcwd b in
  let pic_path := os_path_join current_dir (pic_name self) in
  upload_image file_input pic_path ;;
  accept_alert ;;
  self ← find_image_element self;
  perform_actions self ;;
  emit (PrintLocation (image_location self)) ;;
  emit (PrintSize (image_size self)) ;;
  emit (PrintBorderSize (border_size self)) ;;
  emit (Input "Press Enter to close the browser...") ;;
  emit Quit.

End Run.

(** ** Reading the log *)

(** The offsets of the clicks of a log, in order. *)
Definition clicks (l : list action) : list (Q * Q) :=
  omap (fun a => match a with Click _ x y => Some (x, y) | _ => None end) l.

(** The kinds of action the end-to-end scenario counts.  Sending keys to
    the file input is the upload; sending keys to any other element is a
    text entry. *)
Inductive kind : Type := FileUpload | DialogAcceptance | ClickAction | TextEntry.

#[export] Instance kind_eq_dec : EqDecision kind.
Proof. solve_decision. Defined.

Definition kind_of (a : action) : option kind :=
  match a with
  | SendKeys el _ =>
      if String.eqb (el_value el) "file-upload" then Some FileUpload else Some TextEntry
  | AcceptAlert => Some DialogAcceptance
  | Click _ _ _ => Some ClickAction
  | _ => None
  end.

(** A rearrangement of a list by a list of indices. *)
Definition reorder {A : Type} (idx : list nat) (l : list A) : list A :=
  omap (fun i => l !! i) idx.

Definition with_clickedPoints (obj : UploadedImage) (pts : list Point) : UploadedImage :=
  {| im_pic_name := im_pic_name obj;
     im_image_width := im_image_width obj;
     im_xAxis_point1 := im_xAxis_point1 obj;
     im_xAxis_point2 := im_xAxis_point2 obj;
     im_yAxis_point1 := im_yAxis_point1 obj;
     im_yAxis_point2 := im_yAxis_point2 obj;
     im_xAxisValue_p1 := im_xAxisValue_p1 obj;
     im_xAxisValue_p2 := im_xAxisValue_p2 obj;
     im_yAxisValue_p1 := im_yAxisValue_p1 obj;
     im_yAxisValue_p2 := im_yAxisValue_p2 obj;
     im_clickedPoints := pts |}.

(** ** Specification-side notions *)

(** The projection as the specification words it, with exact halving. *)
Definition spec_projection (X0 Y0 : Q) (W Sw Sh B : Z) : Q * Q :=
  (((X0 - 1) * (inject_Z (Sw - 2 * B) / inject_Z W)
      - inject_Z Sw / 2 + 1 + inject_Z B)%Q,
   ((Y0 - 1) * (inject_Z (Sw - 2 * B) / inject_Z W)
      - inject_Z Sh / 2 + 1 + inject_Z B)%Q).

(** An integer-px token: [ds] is a non-empty run of digits at position [i]
    of [s], directly followed by [px]; the character before the run (or
    [prev] when the run starts the list) and the character after [px] are
    not word characters. *)
Definition before (prev : option ascii) (pre : list ascii) : option ascii :=
  match last pre with Some c => Some c | None => prev end.

Definition token_at (prev : option ascii) (s : list ascii) (i : nat)
    (ds : list ascii) : Prop :=
  exists pre post,
    s = pre ++ ds ++ "p"%char :: "x"%char :: post
    /\ length pre = i
    /\ ds <> []
    /\ Forall (fun c => is_digit c = true) ds
    /\ is_word_opt (before prev pre) = false
    /\ is_word_opt (head post) = false.

Definition px_token (style : string) (i : nat) (n : Z) : Prop :=
  exists ds, token_at None (String.list_ascii_of_string style) i ds
             /\ n = int_of_digits ds.

(** ** Notions used to state the properties of a run *)

(** The offset the projector returns when it returns. *)
Definition offset (W : Z) (sz : Size) (bd : Z) (coor : Q * Q) : Q * Q :=
  (((fst coor - 1) * (inject_Z (width sz - 2 * bd) / inject_Z W)
      - inject_Z (width sz / 2) + 1 + inject_Z bd)%Q,
   ((snd coor - 1) * (inject_Z (width sz - 2 * bd) / inject_Z W)
      - inject_Z (height sz / 2) + 1 + inject_Z bd)%Q).

Definition click_actions (el : option WebElement) (W : Z) (sz : Size) (bd : Z)
    (l : list (Q * Q)) : list action :=
  map (fun coor => Click el (fst (offset W sz bd coor)) (snd (offset W sz bd coor))) l.

(** What a run needs from the page. *)
Definition page_ready (b : Browser) : Prop :=
  "file-upload" ∈ page_ids b
  /\ alert_appears b = true
  /\ "uploaded-image" ∈ page_classes b
  /\ "x-axis-p2" ∈ page_ids b
  /\ "y-axis-p2" ∈ page_ids b.

Definition el_x_axis_p2 : WebElement := mkWebElement ID "x-axis-p2".
Definition el_y_axis_p2 : WebElement := mkWebElement ID "y-axis-p2".
Definition el_uploaded_image : WebElement := mkWebElement CLASS_NAME "uploaded-image".
Definition el_file_upload : WebElement := mkWebElement ID "file-upload".

Definition coords (p : Point) : Q * Q := (pt_x p, pt_y p).

(** ** Notions used to state what a computation emits *)

(** Everything [m] appends to the log satisfies [P], whatever its outcome. *)
Definition emits {A : Type} (P : action -> Prop) (m : M A) : Prop :=
  forall b, exists l, log (m b).2 = log b ++ l /\ Forall P l.

(** Everything [m] has appended to the log when it raises satisfies [P]. *)
Definition fail_emits {A : Type} (P : action -> Prop) (m : M A) : Prop :=
  forall b e, (m b).1 = inl e -> exists l, log (m b).2 = log b ++ l /\ Forall P l.

(** Actions that come before the operator prompt and the end of the
    browser session. *)
Definition session_open (a : action) : Prop :=
  match a with
  | Input _ | Quit => False
  | _ => True
  end.

(** A click aimed at the uploaded image; any other action qualifies. *)
Definition on_image (a : action) : Prop :=
  match a with
  | Click el _ _ => el = Some (mkWebElement CLASS_NAME "uploaded-image")
  | _ => True
  end.

(** ** A page for the examples *)

Definition example_page (border : string) : Browser :=
  {| page_ids := {["file-upload"; "x-axis-p2"; "y-axis-p2"]};
     page_classes := {["uploaded-image"]};
     alert_appears := true;
     img_location := mkLocation 10 20;
     img_size := mkSize 784 600;
     img_border := border;
     os_getcwd := "/home/user";
     inputs := ∅;
     log := [] |}.

Definition example_join (a b : string) : string := a +:+ "/" +:+ b.

Definition example_self : ImageAutomation :=
  init "chromedriver" "http://localhost/" initializeImageObj.

(** * Properties of the projector *)

Lemma inject_Z_nonzero (z : Z) : z <> 0 -> ~ (inject_Z z == 0)%Q.
Proof. intros Hz H. apply Hz. unfold Qeq in H. simpl in H. lia. Qed.

Lemma convert_offset coor W loc sz bd :
  W <> 0 ->
  convert_original_coor_to_current coor W loc (Some sz) (Some bd)
  = inr (offset W sz bd coor).
Proof.
  intros HW. unfold convert_original_coor_to_current.
  destruct (Z.eqb_spec W 0) as [->|_]; [contradiction | reflexivity].
Qed.

(** C1, counterexample: at the specification's own example the scale is
    780/784, not 1, and the result is not (-263, 283); and for an odd
    rendered width the exact half differs from the floor the code takes. *)
Lemma projection_spec_counterexample :
  (exists x y,
      convert_original_coor_to_current (inject_Z 127, inject_Z 581) 784 None
        (Some (mkSize 784 600)) (Some 2) = inr (x, y)
      /\ ~ (x == inject_Z (-263))%Q /\ ~ (y == inject_Z 283)%Q)
  /\ (exists x y,
      convert_original_coor_to_current (inject_Z 1, inject_Z 1) 5 None
        (Some (mkSize 5 5)) (Some 0) = inr (x, y)
      /\ ~ (x == fst (spec_projection (inject_Z 1) (inject_Z 1) 5 5 5 0))%Q).
Proof.
  split.
  - eexists _, _. split; [reflexivity |]. split; intros H; vm_compute in H; discriminate.
  - eexists _, _. split; [reflexivity |]. intros H; vm_compute in H; discriminate.
Qed.

(** C1, amended: whenever the original width is not zero the projection
    returns x = (X0-1)*((Sw-2B)/W) - floor(Sw/2) + 1 + B and
    y = (Y0-1)*((Sw-2B)/W) - floor(Sh/2) + 1 + B; at the specification's
    example (W=784, Sw=784, Sh=600, B=2, point (127,581)) this is
    (-3691/14, 13722/49). *)
Theorem projection_formula_floor :
  (forall (X0 Y0 : Q) (W Sw Sh B : Z) (loc : option Location),
      W <> 0 ->
      exists x y,
        convert_original_coor_to_current (X0, Y0) W loc (Some (mkSize Sw Sh)) (Some B)
        = inr (x, y)
        /\ (x == (X0 - 1) * (inject_Z (Sw - 2 * B) / inject_Z W)
                 - inject_Z (Qfloor (inject_Z Sw / 2)) + 1 + inject_Z B)%Q
        /\ (y == (Y0 - 1) * (inject_Z (Sw - 2 * B) / inject_Z W)
                 - inject_Z (Qfloor (inject_Z Sh / 2)) + 1 + inject_Z B)%Q)
  /\ (exists x y,
        convert_original_coor_to_current (inject_Z 127, inject_Z 581) 784 None
          (Some (mkSize 784 600)) (Some 2) = inr (x, y)
        /\ (x == -3691 # 14)%Q /\ (y == 13722 # 49)%Q).
Proof.
  split.
  - intros X0 Y0 W Sw Sh B loc HW.
    rewrite (convert_offset _ _ _ _ _ HW). eexists _, _.
    split; [reflexivity |]. cbn [fst snd width height].
    rewrite <- !(Zdiv_Qdiv _ 2). split; reflexivity.
  - eexists _, _. split; [reflexivity |]. split; reflexivity.
Qed.

Lemma projection_formula_floor_witness :
  784 <> 0 /\
  exists x y,
    convert_original_coor_to_current (inject_Z 735, inject_Z 400) 784 None
      (Some (mkSize 785 601)) (Some 2) = inr (x, y)
    /\ (x == (inject_Z 735 - 1) * (inject_Z (785 - 2 * 2) / inject_Z 784)
             - inject_Z (Qfloor (inject_Z 785 / 2)) + 1 + inject_Z 2)%Q
    /\ (y == (inject_Z 400 - 1) * (inject_Z (785 - 2 * 2) / inject_Z 784)
             - inject_Z (Qfloor (inject_Z 601 / 2)) + 1 + inject_Z 2)%Q.
Proof.
  split; [lia |].
  apply (proj1 projection_formula_floor (inject_Z 735) (inject_Z 400) 784 785 601 2 None).
  lia.
Defined.

(** C9: the implemented projection, exactly.  One scale, derived from the
    width, serves both axes; the half-width and half-height are floors; a
    zero original width raises [ZeroDivisionError]. *)
Theorem projection_exact_characterization
    (X0 Y0 : Q) (W : Z) (loc : option Location) (sz : Size) (B : Z) :
  convert_original_coor_to_current (X0, Y0) W loc (Some sz) (Some B)
  = if W =? 0 then inl ZeroDivisionError
    else
      let scale := (inject_Z (width sz - 2 * B) / inject_Z W)%Q in
      inr (((X0 - 1) * scale - inject_Z (Qfloor (inject_Z (width sz) / inject_Z 2))
              + 1 + inject_Z B)%Q,
           ((Y0 - 1) * scale - inject_Z (Qfloor (inject_Z (height sz) / inject_Z 2))
              + 1 + inject_Z B)%Q).
Proof.
  unfold convert_original_coor_to_current.
  destruct (W =? 0); [reflexivity |].
  cbn [fst snd]. rewrite <- !Zdiv_Qdiv. reflexivity.
Qed.

(** C6, counterexample: doubling the rendered width and the original width
    with no border moves the x offset of the point (1, 1) from -49 to -99. *)
Lemma scale_invariance_counterexample :
  exists x y x' y',
    convert_original_coor_to_current (inject_Z 1, inject_Z 1) 100 None
      (Some (mkSize 100 50)) (Some 0) = inr (x, y)
    /\ convert_original_coor_to_current (inject_Z 1, inject_Z 1) (2 * 100) None
      (Some (mkSize (2 * 100) 50)) (Some 0) = inr (x', y')
    /\ (x == inject_Z (-49))%Q /\ (x' == inject_Z (-99))%Q /\ ~ (x' == x)%Q.
Proof.
  eexists _, _, _, _. split; [reflexivity |]. split; [reflexivity |].
  split; [reflexivity |]. split; [reflexivity |].
  intros H; vm_compute in H; discriminate.
Qed.

(** C6, amended: with no border, doubling the rendered width and the
    original width leaves the scale factor and (the rendered height being
    kept) the y offset unchanged.  The x offset is not preserved, as the
    counterexample shows. *)
Theorem scale_invariance_of_ratio
    (X0 Y0 : Q) (W Sw Sh : Z) (loc loc' : option Location) :
  W <> 0 ->
  (inject_Z (2 * Sw - 2 * 0) / inject_Z (2 * W) == inject_Z (Sw - 2 * 0) / inject_Z W)%Q
  /\ exists x y x' y',
      convert_original_coor_to_current (X0, Y0) W loc (Some (mkSize Sw Sh)) (Some 0)
      = inr (x, y)
      /\ convert_original_coor_to_current (X0, Y0) (2 * W) loc'
           (Some (mkSize (2 * Sw) Sh)) (Some 0)
         = inr (x', y')
      /\ (y' == y)%Q.
Proof.
  intros HW.
  assert (Hscale : (inject_Z (2 * Sw - 2 * 0) / inject_Z (2 * W)
                    == inject_Z (Sw - 2 * 0) / inject_Z W)%Q).
  { rewrite !Z.sub_0_r, !inject_Z_mult. field. now apply inject_Z_nonzero. }
  split; [exact Hscale |].
  rewrite (convert_offset _ W _ _ _ HW).
  rewrite (convert_offset _ (2 * W)) by lia.
  eexists _, _, _, _. split; [reflexivity |]. split; [reflexivity |].
  cbn [fst snd width height]. rewrite Hscale. reflexivity.
Qed.

Lemma scale_invariance_of_ratio_witness :
  exists x y x' y',
    convert_original_coor_to_current (inject_Z 127, inject_Z 581) 784 None
      (Some (mkSize 501 300)) (Some 0) = inr (x, y)
    /\ convert_original_coor_to_current (inject_Z 127, inject_Z 581) (2 * 784) None
         (Some (mkSize (2 * 501) 300)) (Some 0) = inr (x', y')
    /\ (y' == y)%Q.
Proof.
  apply (scale_invariance_of_ratio (inject_Z 127) (inject_Z 581) 784 501 300 None None).
  lia.
Defined.




(** C8: the projection does not depend on where the element is on screen:
    calls that differ only in [image_location] return the same result. *)
Theorem projection_ignores_location
    (coor : Q * Q) (W : Z) (loc1 loc2 : option Location)
    (sz : option Size) (B : option Z) :
  convert_original_coor_to_current coor W loc1 sz B
  = convert_original_coor_to_current coor W loc2 sz B.
Proof. reflexivity. Qed.

(** * Properties of the border pattern *)

Lemma is_digit_word c : is_digit c = true -> is_word c = true.
Proof. unfold is_word. intros ->. reflexivity. Qed.

Lemma match_px_spec s :
  match_px s = true <->
  exists post, s = "p"%char :: "x"%char :: post /\ is_word_opt (head post) = false.
Proof.
  split.
  - destruct s as [|c1 [|c2 rest]]; simpl; try discriminate.
    intros H. apply andb_prop in H as [H Hb]. apply andb_prop in H as [H1 H2].
    apply Ascii.eqb_eq in H1, H2. subst. exists rest. split; [reflexivity |].
    unfold word_boundary in Hb. simpl in Hb.
    destruct (is_word_opt (head rest)); [discriminate | reflexivity].
  - intros (post & -> & Hp). simpl. unfold word_boundary. simpl. now rewrite Hp.
Qed.

Lemma match_digits_px_sound s ds :
  match_digits_px s = Some ds ->
  ds <> [] /\ Forall (fun c => is_digit c = true) ds
  /\ exists post, s = ds ++ "p"%char :: "x"%char :: post
                  /\ is_word_opt (head post) = false.
Proof.
  revert ds. induction s as [|c s IH]; intros ds H; simpl in H; [discriminate |].
  destruct (is_digit c) eqn:Hc; [| discriminate].
  destruct (match_digits_px s) as [ds0|] eqn:E.
  - injection H as <-. destruct (IH ds0 eq_refl) as (_ & Hall & post & -> & Hp).
    split; [discriminate |]. split; [now constructor |].
    exists post. split; [reflexivity | exact Hp].
  - destruct (match_px s) eqn:Hpx; [| discriminate]. injection H as <-.
    apply match_px_spec in Hpx as (post & -> & Hp).
    split; [discriminate |]. split; [repeat constructor; exact Hc |].
    exists post. split; [reflexivity | exact Hp].
Qed.

Lemma match_digits_px_complete ds post :
  ds <> [] -> Forall (fun c => is_digit c = true) ds ->
  is_word_opt (head post) = false ->
  match_digits_px (ds ++ "p"%char :: "x"%char :: post) = Some ds.
Proof.
  intros Hne Hall Hp. induction ds as [|d ds IH]; [contradiction |].
  inversion Hall as [|? ? Hd Hds]; subst. simpl. rewrite Hd.
  destruct ds as [|d' ds'].
  - simpl. unfold word_boundary. simpl. now rewrite Hp.
  - rewrite IH; [reflexivity | discriminate | exact Hds].
Qed.

Lemma before_cons prev c pre : before prev (c :: pre) = before (Some c) pre.
Proof. unfold before. rewrite last_cons. now destruct (last pre). Qed.

Lemma token_at_nil prev i ds : ~ token_at prev [] i ds.
Proof.
  intros (pre & post & H & _). symmetry in H.
  apply app_eq_nil in H as [_ H]. apply app_eq_nil in H as [_ H]. discriminate.
Qed.

Lemma match_here_token prev s ds :
  match_here prev s = Some ds <-> token_at prev s 0 ds.
Proof.
  unfold match_here. split.
  - destruct (word_boundary prev (head s)) eqn:Hb; [| discriminate]. intros H.
    destruct (match_digits_px_sound _ _ H) as (Hne & Hall & post & -> & Hp).
    exists [], post. repeat split; try assumption.
    destruct ds as [|d ds]; [contradiction |]. inversion Hall; subst.
    unfold word_boundary in Hb. simpl in Hb. rewrite is_digit_word in Hb by assumption.
    unfold before. simpl. now destruct (is_word_opt prev).
  - intros (pre & post & -> & Hlen & Hne & Hall & Hprev & Hp).
    destruct pre; [| discriminate]. simpl app.
    unfold before in Hprev. simpl in Hprev.
    destruct ds as [|d ds]; [contradiction |]. inversion Hall; subst.
    unfold word_boundary. simpl head. simpl is_word_opt at 2.
    rewrite Hprev, is_digit_word by assumption. simpl.
    now apply (match_digits_px_complete (d :: ds)).
Qed.

Lemma token_at_S prev c s i ds :
  token_at prev (c :: s) (S i) ds <-> token_at (Some c) s i ds.
Proof.
  split.
  - intros (pre & post & H & Hlen & Hne & Hall & Hprev & Hp).
    destruct pre as [|c' pre]; [discriminate |]. injection H as -> ->.
    rewrite before_cons in Hprev. injection Hlen as Hlen.
    exists pre, post. repeat split; assumption.
  - intros (pre & post & -> & Hlen & Hne & Hall & Hprev & Hp).
    exists (c :: pre), post. rewrite before_cons. simpl. repeat split; auto.
Qed.

Lemma token_at_match prev s i ds :
  token_at prev s i ds ->
  match_here (before prev (take i s)) (drop i s) = Some ds.
Proof.
  revert prev s. induction i as [|i IH]; intros prev s H.
  - rewrite take_0, drop_0. now apply match_here_token.
  - destruct s as [|c s]; [now apply token_at_nil in H |].
    apply token_at_S in H. simpl. rewrite before_cons. now apply IH.
Qed.

Lemma token_unique prev s i ds ds' :
  token_at prev s i ds -> token_at prev s i ds' -> ds = ds'.
Proof.
  intros H H'. apply token_at_match in H, H'. congruence.
Qed.

Lemma search_from_None prev s :
  search_from prev s = None -> forall i ds, ~ token_at prev s i ds.
Proof.
  revert prev. induction s as [|c s IH]; intros prev H i ds Ht.
  - now apply token_at_nil in Ht.
  - simpl in H. destruct (match_here prev (c :: s)) eqn:E; [discriminate |].
    destruct i as [|i].
    + apply match_here_token in Ht. congruence.
    + apply token_at_S in Ht. exact (IH _ H _ _ Ht).
Qed.

Lemma search_from_Some prev s ds :
  search_from prev s = Some ds ->
  exists i, token_at prev s i ds
            /\ forall j ds', (j < i)%nat -> ~ token_at prev s j ds'.
Proof.
  revert prev. induction s as [|c s IH]; intros prev H.
  - simpl in H. destruct (match_here prev []) eqn:E; [| discriminate].
    injection H as ->. exists 0%nat. split; [now apply match_here_token | intros; lia].
  - simpl in H. destruct (match_here prev (c :: s)) eqn:E.
    + injection H as ->. exists 0%nat. split; [now apply match_here_token | intros; lia].
    + destruct (IH _ H) as (i & Ht & Hleft). exists (S i). split.
      * now apply token_at_S.
      * intros j ds' Hj Hj'. destruct j as [|j].
        -- apply match_here_token in Hj'. congruence.
        -- apply token_at_S in Hj'. apply (Hleft j ds'); [lia | exact Hj'].
Qed.

Lemma search_from_leftmost prev s i ds :
  token_at prev s i ds ->
  (forall j ds', (j < i)%nat -> ~ token_at prev s j ds') ->
  search_from prev s = Some ds.
Proof.
  intros Ht Hleft. destruct (search_from prev s) as [ds0|] eqn:E.
  - apply search_from_Some in E as (i0 & Ht0 & Hleft0).
    destruct (lt_eq_lt_dec i0 i) as [[Hlt | ->] | Hgt].
    + now destruct (Hleft _ _ Hlt Ht0).
    + f_equal. exact (token_unique _ _ _ _ _ Ht0 Ht).
    + now destruct (Hleft0 _ _ Hgt Ht).
  - now destruct (search_from_None _ _ E _ _ Ht).
Qed.

Lemma match_token prev s i ds :
  (i <= length s)%nat ->
  match_here (before prev (take i s)) (drop i s) = Some ds ->
  token_at prev s i ds.
Proof.
  revert prev s. induction i as [|i IH]; intros prev s Hlen H.
  - rewrite take_0, drop_0 in H. now apply match_here_token.
  - destruct s as [|c s]; [simpl in Hlen; lia |].
    simpl in H, Hlen. rewrite before_cons in H.
    apply token_at_S, IH; [lia | exact H].
Qed.

(** Tokens are decided by running the pattern at the position. *)
Lemma px_token_iff style i n :
  px_token style i n <->
  (i <= length (String.list_ascii_of_string style))%nat
  /\ exists ds,
       match_here (before None (take i (String.list_ascii_of_string style)))
                  (drop i (String.list_ascii_of_string style)) = Some ds
       /\ n = int_of_digits ds.
Proof.
  split.
  - intros (ds & Ht & Hn). split.
    + destruct Ht as (pre & post & -> & <- & _). rewrite length_app. lia.
    + exists ds. split; [now apply token_at_match | exact Hn].
  - intros (Hlen & ds & Hm & Hn). exists ds. split; [| exact Hn].
    now apply match_token.
Qed.

Lemma parse_border_leftmost old style i n :
  px_token style i n ->
  (forall j m, (j < i)%nat -> ~ px_token style j m) ->
  parse_border old style = Some n.
Proof.
  intros (ds & Ht & ->) Hleft. unfold parse_border, re_search.
  rewrite (search_from_leftmost _ _ _ _ Ht); [reflexivity |].
  intros j ds' Hj Hj'. apply (Hleft j (int_of_digits ds') Hj). now exists ds'.
Qed.

Lemma parse_border_no_token old style :
  (forall i n, ~ px_token style i n) -> parse_border old style = old.
Proof.
  intros Hno. unfold parse_border, re_search.
  destruct (search_from None _) as [ds|] eqn:E; [| reflexivity].
  apply search_from_Some in E as (i & Ht & _).
  destruct (Hno i (int_of_digits ds)). now exists ds.
Qed.

Lemma no_token_by_search style :
  re_search style = None -> forall i n, ~ px_token style i n.
Proof.
  intros H i n (ds & Ht & _). exact (search_from_None _ _ H _ _ Ht).
Qed.

(** * Properties of the session driver *)

Lemma bind_ok {A B : Type} (m : M A) (k : A -> M B) b a b' :
  m b = (inr a, b') -> (m ≫= k) b = k a b'.
Proof. intros H. unfold mbind, M_bind. now rewrite H. Qed.

Lemma bind_err {A B : Type} (m : M A) (k : A -> M B) b e b' :
  m b = (inl e, b') -> (m ≫= k) b = (inl e, b').
Proof. intros H. unfold mbind, M_bind. now rewrite H. Qed.

Lemma with_log_same b : with_log b (log b) = b.
Proof. now destruct b. Qed.

Lemma emit_eq a b : emit a b = (inr tt, with_log b (log b ++ [a])).
Proof. reflexivity. Qed.

Lemma find_element_ok by' v b :
  v ∈ match by' with ID => page_ids b | CLASS_NAME => page_classes b end ->
  find_element by' v b = (inr (mkWebElement by' v), b).
Proof.
  intros H. unfold find_element, mbind, M_bind, ask.
  now rewrite bool_decide_eq_true_2.
Qed.

Lemma find_element_err by' v b :
  v ∉ match by' with ID => page_ids b | CLASS_NAME => page_classes b end ->
  find_element by' v b = (inl NoSuchElementException, b).
Proof.
  intros H. unfold find_element, mbind, M_bind, ask.
  now rewrite bool_decide_eq_false_2.
Qed.

Lemma click_point_ok self coor b sz bd :
  image_size self = Some sz -> border_size self = Some bd ->
  original_image_width self <> 0 ->
  click_point self coor b
  = (inr tt, with_log b (log b ++ click_actions (image_element self)
                                    (original_image_width self) sz bd [coor])).
Proof.
  intros Hsz Hbd HW. unfold click_point, lift, mbind, M_bind.
  rewrite Hsz, Hbd, convert_offset by assumption. reflexivity.
Qed.

Lemma for_each_click_ok self l b sz bd :
  image_size self = Some sz -> border_size self = Some bd ->
  original_image_width self <> 0 ->
  for_each l (click_point self) b
  = (inr tt, with_log b (log b ++ click_actions (image_element self)
                                    (original_image_width self) sz bd l)).
Proof.
  intros Hsz Hbd HW. revert b. induction l as [|coor l IH]; intros b.
  - simpl. rewrite app_nil_r, with_log_same. reflexivity.
  - simpl for_each. rewrite (bind_ok _ _ _ _ _ (click_point_ok _ _ _ _ _ Hsz Hbd HW)).
    rewrite IH. f_equal. unfold with_log. simpl. now rewrite <- app_assoc.
Qed.

Lemma for_each_click_err self coor l b e :
  (forall c, convert_original_coor_to_current c (original_image_width self)
               (image_location self) (image_size self) (border_size self) = inl e) ->
  for_each (coor :: l) (click_point self) b = (inl e, b).
Proof.
  intros H. simpl. unfold click_point, lift, mbind, M_bind. now rewrite H.
Qed.

Lemma enter_axis_values_ok self b :
  "x-axis-p2" ∈ page_ids b -> "y-axis-p2" ∈ page_ids b ->
  exists b',
    enter_axis_values self b = (inr tt, b')
    /\ log b' = log b ++ [Clear el_x_axis_p2;
                          SendKeys el_x_axis_p2 (str (xAxisValue_p2 self));
                          Clear el_y_axis_p2;
                          SendKeys el_x_axis_p2 (str (yAxisValue_p2 self))]
    /\ input_value b' "x-axis-p2"
       = str (xAxisValue_p2 self) +:+ str (yAxisValue_p2 self)
    /\ input_value b' "y-axis-p2" = "".
Proof.
  intros Hx Hy. unfold enter_axis_values.
  rewrite (bind_ok _ _ _ _ _ (find_element_ok ID _ _ Hx)).
  unfold clear, send_keys, set_input, emit, find_element, ask, mbind, M_bind.
  cbn. rewrite bool_decide_eq_true_2 by exact Hy. cbn.
  eexists. split; [reflexivity |]. unfold input_value. cbn.
  split; [now rewrite <- !app_assoc |].
  split.
  - rewrite lookup_insert_eq. cbn. rewrite lookup_insert_ne by discriminate.
    rewrite lookup_insert_eq. cbn. rewrite lookup_insert_eq. reflexivity.
  - rewrite lookup_insert_ne by discriminate. now rewrite lookup_insert_eq.
Qed.

Lemma perform_actions_ok self b sz bd :
  image_size self = Some sz -> border_size self = Some bd ->
  original_image_width self <> 0 ->
  "x-axis-p2" ∈ page_ids b -> "y-axis-p2" ∈ page_ids b ->
  exists b',
    perform_actions self b = (inr tt, b')
    /\ log b' = log b
         ++ click_actions (image_element self) (original_image_width self) sz bd
              (original_axes_points self)
         ++ [Clear el_x_axis_p2;
             SendKeys el_x_axis_p2 (str (xAxisValue_p2 self));
             Clear el_y_axis_p2;
             SendKeys el_x_axis_p2 (str (yAxisValue_p2 self))]
         ++ click_actions (image_element self) (original_image_width self) sz bd
              (clickedPoints self).
Proof.
  intros Hsz Hbd HW Hx Hy. unfold perform_actions.
  rewrite (bind_ok _ _ _ _ _ (for_each_click_ok _ _ _ _ _ Hsz Hbd HW)).
  cbv beta.
  match goal with |- context [mbind _ (enter_axis_values self) ?b0] =>
    destruct (enter_axis_values_ok self b0 Hx Hy) as (b1 & E & Hlog & _)
  end.
  rewrite (bind_ok _ _ _ _ _ E).
  rewrite (for_each_click_ok _ _ _ _ _ Hsz Hbd HW).
  eexists. split; [reflexivity |]. cbn. rewrite Hlog. cbn.
  now rewrite <- !app_assoc.
Qed.

Lemma accept_alert_ok b :
  alert_appears b = true ->
  accept_alert b = (inr tt, with_log b (log b ++ [AcceptAlert])).
Proof. intros H. unfold accept_alert, ask, mbind, M_bind. now rewrite H. Qed.

Lemma accept_alert_err b :
  alert_appears b = false -> accept_alert b = (inl TimeoutException, b).
Proof. intros H. unfold accept_alert, ask, mbind, M_bind. now rewrite H. Qed.

Lemma find_image_element_ok self b :
  "uploaded-image" ∈ page_classes b ->
  find_image_element self b
  = (inr (set_geometry self el_uploaded_image (img_location b) (img_size b)
            (img_border b)), b).
Proof.
  intros H. unfold find_image_element.
  rewrite (bind_ok _ _ _ _ _ (find_element_ok CLASS_NAME _ _ H)). reflexivity.
Qed.

Lemma find_image_element_err self b :
  "uploaded-image" ∉ page_classes b ->
  find_image_element self b = (inl NoSuchElementException, b).
Proof.
  intros H. unfold find_image_element.
  now rewrite (bind_err _ _ _ _ _ (find_element_err CLASS_NAME _ _ H)).
Qed.

Lemma enter_axis_values_success_inv self b :
  (enter_axis_values self b).1 = inr tt ->
  "x-axis-p2" ∈ page_ids b /\ "y-axis-p2" ∈ page_ids b.
Proof.
  intros H.
  destruct (decide ("x-axis-p2" ∈ page_ids b)) as [Hx | Hx].
  - split; [exact Hx |].
    destruct (decide ("y-axis-p2" ∈ page_ids b)) as [Hy | Hy]; [exact Hy |].
    exfalso. revert H. unfold enter_axis_values.
    rewrite (bind_ok _ _ _ _ _ (find_element_ok ID _ _ Hx)).
    rewrite (bind_ok (clear _) _ _ _ _ eq_refl).
    rewrite (bind_ok (send_keys _ _) _ _ _ _ eq_refl).
    match goal with |- context [mbind _ (find_element ID ?v) ?b0] =>
      rewrite (bind_err _ _ _ _ _ (find_element_err ID v b0 Hy))
    end.
    discriminate.
  - exfalso. revert H. unfold enter_axis_values.
    rewrite (bind_err _ _ _ _ _ (find_element_err ID _ _ Hx)). discriminate.
Qed.

Lemma perform_actions_border_missing self coor l b :
  original_axes_points self = coor :: l ->
  border_size self = None ->
  perform_actions self b = (inl TypeError, b).
Proof.
  intros Haxes Hbd. unfold perform_actions. rewrite Haxes.
  apply bind_err, for_each_click_err. intros c.
  unfold convert_original_coor_to_current. rewrite Hbd.
  now destruct (image_size self).
Qed.

Lemma perform_actions_success_inv self b sz :
  image_size self = Some sz ->
  original_axes_points self <> [] ->
  (perform_actions self b).1 = inr tt ->
  original_image_width self <> 0
  /\ (exists bd, border_size self = Some bd)
  /\ "x-axis-p2" ∈ page_ids b /\ "y-axis-p2" ∈ page_ids b.
Proof.
  intros Hsz Haxes H.
  destruct (original_axes_points self) as [|coor l] eqn:El; [contradiction |].
  destruct (border_size self) as [bd|] eqn:Hbd.
  2:{ rewrite (perform_actions_border_missing _ _ _ _ El Hbd) in H. discriminate. }
  destruct (Z.eq_dec (original_image_width self) 0) as [HW | HW].
  { exfalso. revert H. unfold perform_actions. rewrite El.
    erewrite bind_err; [discriminate |]. apply for_each_click_err with (e := ZeroDivisionError).
    intros c. unfold convert_original_coor_to_current. now rewrite Hsz, Hbd, HW. }
  split; [exact HW |]. split; [now exists bd |].
  revert H. unfold perform_actions.
  rewrite (bind_ok _ _ _ _ _ (for_each_click_ok _ _ _ _ _ Hsz Hbd HW)). cbv beta.
  match goal with |- context [mbind _ (enter_axis_values self) ?b0] =>
    destruct (enter_axis_values self b0) as [[e | []] b1] eqn:E
  end.
  - rewrite (bind_err _ _ _ _ _ E). discriminate.
  - intros _.
    match type of E with enter_axis_values _ ?b0 = _ =>
      apply (enter_axis_values_success_inv self b0)
    end.
    now rewrite E.
Qed.

Section RunProperties.

Variable os_path_join : string -> string -> string.

Lemma run_ok self b bd :
  page_ready b ->
  original_image_width self <> 0 ->
  parse_border (border_size self) (img_border b) = Some bd ->
  exists b',
    run os_path_join self b = (inr tt, b')
    /\ log b' = log b
         ++ [Get (web_address self); MaximizeWindow; Sleep 1;
             SendKeys el_file_upload (os_path_join (os_getcwd b) (pic_name self));
             AcceptAlert]
         ++ click_actions (Some el_uploaded_image) (original_image_width self)
              (img_size b) bd (original_axes_points self)
         ++ [Clear el_x_axis_p2;
             SendKeys el_x_axis_p2 (str (xAxisValue_p2 self));
             Clear el_y_axis_p2;
             SendKeys el_x_axis_p2 (str (yAxisValue_p2 self))]
         ++ click_actions (Some el_uploaded_image) (original_image_width self)
              (img_size b) bd (clickedPoints self)
         ++ [PrintLocation (Some (img_location b));
             PrintSize (Some (img_size b));
             PrintBorderSize (Some bd);
             Input "Press Enter to close the browser...";
             Quit].
Proof.
  intros (Hup & Halert & Himg & Hx & Hy) HW Hbd. unfold run.
  do 3 rewrite (bind_ok _ _ _ _ _ (emit_eq _ _)).
  match goal with |- context [mbind _ (find_element ID ?v) ?b0] =>
    rewrite (bind_ok _ _ _ _ _ (find_element_ok ID v b0 Hup))
  end.
  rewrite (bind_ok ask _ _ _ _ eq_refl).
  unfold upload_image. rewrite (bind_ok (send_keys _ _) _ _ _ _ eq_refl).
  match goal with |- context [mbind _ accept_alert ?b0] =>
    rewrite (bind_ok _ _ _ _ _ (accept_alert_ok b0 Halert))
  end.
  match goal with |- context [mbind _ (find_image_element ?s) ?b0] =>
    rewrite (bind_ok _ _ _ _ _ (find_image_element_ok s b0 Himg))
  end.
  cbv beta.
  match goal with |- context [mbind _ (perform_actions ?s) ?b0] =>
    destruct (perform_actions_ok s b0 (img_size b) bd eq_refl Hbd HW Hx Hy)
      as (b1 & E & Hlog)
  end.
  rewrite (bind_ok _ _ _ _ _ E).
  do 4 rewrite (bind_ok _ _ _ _ _ (emit_eq _ _)). rewrite emit_eq.
  eexists. split; [reflexivity |]. cbn. rewrite Hlog. cbn.
  rewrite Hbd. rewrite <- !app_assoc. reflexivity.
Qed.

Lemma run_success_inv self b :
  original_axes_points self <> [] ->
  (run os_path_join self b).1 = inr tt ->
  page_ready b
  /\ original_image_width self <> 0
  /\ exists bd, parse_border (border_size self) (img_border b) = Some bd.
Proof.
  intros Haxes H. revert H. unfold run.
  do 3 rewrite (bind_ok _ _ _ _ _ (emit_eq _ _)).
  destruct (decide ("file-upload" ∈ page_ids b)) as [Hup | Hup].
  2:{ match goal with |- context [mbind _ (find_element ID ?v) ?b0] =>
        rewrite (bind_err _ _ _ _ _ (find_element_err ID v b0 Hup))
      end. discriminate. }
  match goal with |- context [mbind _ (find_element ID ?v) ?b0] =>
    rewrite (bind_ok _ _ _ _ _ (find_element_ok ID v b0 Hup))
  end.
  rewrite (bind_ok ask _ _ _ _ eq_refl).
  unfold upload_image. rewrite (bind_ok (send_keys _ _) _ _ _ _ eq_refl).
  destruct (alert_appears b) eqn:Halert.
  2:{ match goal with |- context [mbind _ accept_alert ?b0] =>
        rewrite (bind_err _ _ _ _ _ (accept_alert_err b0 Halert))
      end. discriminate. }
  match goal with |- context [mbind _ accept_alert ?b0] =>
    rewrite (bind_ok _ _ _ _ _ (accept_alert_ok b0 Halert))
  end.
  destruct (decide ("uploaded-image" ∈ page_classes b)) as [Himg | Himg].
  2:{ match goal with |- context [mbind _ (find_image_element ?s) ?b0] =>
        rewrite (bind_err _ _ _ _ _ (find_image_element_err s b0 Himg))
      end. discriminate. }
  match goal with |- context [mbind _ (find_image_element ?s) ?b0] =>
    rewrite (bind_ok _ _ _ _ _ (find_image_element_ok s b0 Himg))
  end.
  cbv beta.
  match goal with |- context [mbind _ (perform_actions ?s) ?b0] =>
    destruct (perform_actions s b0) as [[e | []] b1] eqn:E;
    [ rewrite (bind_err _ _ _ _ _ E); discriminate
    | destruct (perform_actions_success_inv s b0 (img_size b) eq_refl Haxes)
        as (HW & (bd & Hbd) & Hx & Hy); [now rewrite E |] ]
  end.
  intros _. repeat split; try assumption. now exists bd.
Qed.

End RunProperties.

Lemma clicks_app l1 l2 : clicks (l1 ++ l2) = clicks l1 ++ clicks l2.
Proof. apply omap_app. Qed.

Lemma clicks_click_actions el W sz bd l :
  clicks (click_actions el W sz bd l) = map (offset W sz bd) l.
Proof.
  induction l as [|c l IH]; [reflexivity |].
  change (clicks (click_actions el W sz bd (c :: l)))
    with ((fst (offset W sz bd c), snd (offset W sz bd c))
            :: clicks (click_actions el W sz bd l)).
  rewrite IH. reflexivity.
Qed.

Lemma kinds_click_actions el W sz bd l :
  omap kind_of (click_actions el W sz bd l) = replicate (length l) ClickAction.
Proof. induction l as [|c l IH]; [reflexivity |]. simpl. now f_equal. Qed.

Lemma reorder_map {A B : Type} (f : A -> B) (idx : list nat) (l : list A) :
  reorder idx (map f l) = map f (reorder idx l).
Proof.
  unfold reorder. induction idx as [|i idx IH]; [reflexivity |].
  cbn [omap list_omap]. change (map f l) with (f <$> l) at 1.
  rewrite list_lookup_fmap. destruct (l !! i); cbn; now rewrite <- IH.
Qed.

(** C2: the axis-value entry step on the built-in calibration data.  Both
    inputs are located and cleared, 10 is typed into the x-axis input, and
    100, the y-axis value, is typed into the x-axis input as well: the
    x-axis input ends up holding 10100 and the y-axis input stays empty. *)
Theorem axis_value_entry_on_builtin_data :
  exists b',
    enter_axis_values example_self (example_page "2px solid rgb(0, 0, 0)")
    = (inr tt, b')
    /\ log b' = [Clear el_x_axis_p2; SendKeys el_x_axis_p2 "10";
                 Clear el_y_axis_p2; SendKeys el_x_axis_p2 "100"]
    /\ input_value b' "x-axis-p2" = "10100"
    /\ input_value b' "y-axis-p2" = "".
Proof.
  eexists. split; [vm_compute; reflexivity |]. vm_compute. repeat split.
Qed.

Section ClaimsOnRuns.

Variable os_path_join : string -> string -> string.
Variables dp wa : string.

Lemma init_axes_nonempty obj :
  original_axes_points (init dp wa obj) <> [].
Proof. discriminate. Qed.

Lemma run_clicks obj b bd :
  log b = [] ->
  page_ready b ->
  im_image_width obj <> 0 ->
  parse_border None (img_border b) = Some bd ->
  (run os_path_join (init dp wa obj) b).1 = inr tt
  /\ clicks (log (run os_path_join (init dp wa obj) b).2)
     = map (fun p => offset (im_image_width obj) (img_size b) bd (coords p))
           ([im_xAxis_point1 obj; im_xAxis_point2 obj;
             im_yAxis_point1 obj; im_yAxis_point2 obj] ++ im_clickedPoints obj).
Proof.
  intros Hlog0 Hready HW Hbd.
  destruct (run_ok os_path_join (init dp wa obj) b bd Hready HW Hbd)
    as (b' & E & Hlog).
  rewrite E. split; [reflexivity |]. cbn [snd]. rewrite Hlog, Hlog0.
  rewrite !clicks_app, !clicks_click_actions.
  cbn [clicks omap list_omap app]. rewrite app_nil_r.
  rewrite <- (map_map coords (offset _ _ _)). reflexivity.
Qed.

(** C3: in a successful run the clicks are, in this order, the projections
    of xAxis_point1, xAxis_point2, yAxis_point1, yAxis_point2 and then of
    the data points in the order of [clickedPoints], one click per entry;
    and rearranging [clickedPoints] by any list of indices (a permutation
    in particular) rearranges the data clicks in the same way and leaves
    the four axis clicks in place. *)
Theorem click_sequence_follows_input_order (obj : UploadedImage) (b : Browser) :
  log b = [] ->
  (run os_path_join (init dp wa obj) b).1 = inr tt ->
  let cs := clicks (log (run os_path_join (init dp wa obj) b).2) in
  let conv := fun p : Point =>
    convert_original_coor_to_current (pt_x p, pt_y p) (im_image_width obj)
      (Some (img_location b)) (Some (img_size b))
      (parse_border None (img_border b)) in
  map inr cs
  = map conv ([im_xAxis_point1 obj; im_xAxis_point2 obj;
               im_yAxis_point1 obj; im_yAxis_point2 obj] ++ im_clickedPoints obj)
  /\ forall idx : list nat,
      let obj' := with_clickedPoints obj (reorder idx (im_clickedPoints obj)) in
      (run os_path_join (init dp wa obj') b).1 = inr tt
      /\ clicks (log (run os_path_join (init dp wa obj') b).2)
         = take 4 cs ++ reorder idx (drop 4 cs).
Proof.
  intros Hlog0 Hrun.
  destruct (run_success_inv _ _ _ (init_axes_nonempty obj) Hrun)
    as (Hready & HW & bd & Hbd).
  cbn in HW, Hbd.
  destruct (run_clicks obj b bd Hlog0 Hready HW Hbd) as [_ Hcs].
  cbv zeta. rewrite Hcs. split.
  - rewrite map_map. apply map_ext. intros p.
    rewrite Hbd, convert_offset by exact HW. reflexivity.
  - intros idx.
    destruct (run_clicks (with_clickedPoints obj (reorder idx (im_clickedPoints obj)))
                b bd Hlog0 Hready HW Hbd) as [Hok Hcs'].
    split; [exact Hok |]. rewrite Hcs'. cbn.
    do 4 f_equal. rewrite drop_0. now rewrite reorder_map.
Qed.

(** C5: with the built-in calibration data, every successful run has
    performed, when it blocks on the operator's input, exactly one file
    upload, one dialog acceptance, four clicks, two text entries and nine
    clicks, in that order: 13 clicks in all. *)
Theorem end_to_end_action_sequence (b : Browser) :
  log b = [] ->
  (run os_path_join (init dp wa initializeImageObj) b).1 = inr tt ->
  exists pre,
    log (run os_path_join (init dp wa initializeImageObj) b).2
    = pre ++ [Input "Press Enter to close the browser..."; Quit]
    /\ omap kind_of pre
       = [FileUpload; DialogAcceptance] ++ replicate 4 ClickAction
         ++ replicate 2 TextEntry ++ replicate 9 ClickAction
    /\ length (filter (fun k => k = ClickAction) (omap kind_of pre)) = 13%nat.
Proof.
  intros Hlog0 Hrun.
  destruct (run_success_inv _ _ _ (init_axes_nonempty initializeImageObj) Hrun)
    as (Hready & HW & bd & Hbd).
  destruct (run_ok os_path_join _ b bd Hready HW Hbd) as (b' & E & Hlog).
  rewrite E. cbn [snd]. rewrite Hlog, Hlog0.
  eexists (_ :: _ :: _ :: _ :: _ :: _ :: _ :: _ :: _ :: _ :: _ :: _ :: _ :: _ :: _
             :: _ :: _ :: _ :: _ :: _ :: _ :: _ :: _ :: _ :: _ :: []).
  split; [reflexivity |]. split; reflexivity.
Qed.

End ClaimsOnRuns.

Lemma click_sequence_follows_input_order_witness :
  (run example_join
     (init "chromedriver" "http://localhost/"
        (with_clickedPoints initializeImageObj
           (reorder [8; 7; 6; 5; 4; 3; 2; 1; 0]%nat
              (im_clickedPoints initializeImageObj))))
     (example_page "2px solid rgb(0, 0, 0)")).1 = inr tt
  /\ clicks (log (run example_join
                    (init "chromedriver" "http://localhost/"
                       (with_clickedPoints initializeImageObj
                          (reorder [8; 7; 6; 5; 4; 3; 2; 1; 0]%nat
                             (im_clickedPoints initializeImageObj))))
                    (example_page "2px solid rgb(0, 0, 0)")).2)
     = take 4 (clicks (log (run example_join example_self
                              (example_page "2px solid rgb(0, 0, 0)")).2))
       ++ reorder [8; 7; 6; 5; 4; 3; 2; 1; 0]%nat
            (drop 4 (clicks (log (run example_join example_self
                                    (example_page "2px solid rgb(0, 0, 0)")).2))).
Proof.
  apply (proj2 (click_sequence_follows_input_order example_join
                  "chromedriver" "http://localhost/" initializeImageObj
                  (example_page "2px solid rgb(0, 0, 0)") eq_refl eq_refl)
               [8; 7; 6; 5; 4; 3; 2; 1; 0]%nat).
Defined.

Lemma end_to_end_action_sequence_witness :
  exists pre,
    log (run example_join example_self (example_page "2px solid rgb(0, 0, 0)")).2
    = pre ++ [Input "Press Enter to close the browser..."; Quit]
    /\ omap kind_of pre
       = [FileUpload; DialogAcceptance] ++ replicate 4 ClickAction
         ++ replicate 2 TextEntry ++ replicate 9 ClickAction
    /\ length (filter (fun k => k = ClickAction) (omap kind_of pre)) = 13%nat.
Proof.
  apply (end_to_end_action_sequence example_join "chromedriver" "http://localhost/"
           (example_page "2px solid rgb(0, 0, 0)")).
  - reflexivity.
  - vm_compute. reflexivity.
Defined.

(** * Border parsing in [find_image_element] *)

Lemma example_page_has_image border :
  "uploaded-image" ∈ page_classes (example_page border).
Proof. cbn. set_solver. Qed.

(** C10: when the computed border style holds integer-px tokens, the border
    size stored by [find_image_element] is the integer of the leftmost one,
    however many follow it. *)
Theorem border_is_leftmost_token
    (self : ImageAutomation) (b : Browser) (i : nat) (n : Z) :
  "uploaded-image" ∈ page_classes b ->
  px_token (img_border b) i n ->
  (forall j m, (j < i)%nat -> ~ px_token (img_border b) j m) ->
  exists self',
    find_image_element self b = (inr self', b) /\ border_size self' = Some n.
Proof.
  intros Himg Ht Hleft. rewrite (find_image_element_ok _ _ Himg).
  eexists. split; [reflexivity |]. cbn.
  exact (parse_border_leftmost _ _ _ _ Ht Hleft).
Qed.

Lemma border_is_leftmost_token_witness :
  px_token "thick 3px 5px" 10 5
  /\ exists self',
       find_image_element example_self (example_page "thick 3px 5px")
       = (inr self', example_page "thick 3px 5px")
       /\ border_size self' = Some 3.
Proof.
  split.
  - apply px_token_iff. split; [vm_compute; lia |].
    eexists. split; vm_compute; reflexivity.
  - apply (border_is_leftmost_token example_self (example_page "thick 3px 5px") 6 3).
    + apply example_page_has_image.
    + apply px_token_iff. split; [vm_compute; lia |].
      eexists. split; vm_compute; reflexivity.
    + intros j m Hj Hjm. apply px_token_iff in Hjm as (_ & ds & Hm & _).
      do 6 (destruct j as [|j]; [vm_compute in Hm; discriminate |]). lia.
Defined.

(** C4, counterexample: for the computed style [medium none], which holds
    no integer-px token, [find_image_element] raises nothing; it returns
    with [border_size] still [None]. *)
Lemma border_parsing_counterexample :
  (forall i n, ~ px_token "medium none" i n)
  /\ exists self',
       find_image_element example_self (example_page "medium none")
       = (inr self', example_page "medium none")
       /\ border_size self' = None.
Proof.
  split.
  - apply no_token_by_search. vm_compute. reflexivity.
  - rewrite find_image_element_ok by apply example_page_has_image.
    eexists. split; [reflexivity |]. vm_compute. reflexivity.
Qed.

(** C4, amended: when the image element is found, [find_image_element]
    returns normally.  If the computed border style holds exactly one
    integer-px token, the stored border size is that integer.  If it holds
    none, no error is raised at that point and [border_size] keeps its
    previous value; when that value is [None] (as after construction) the
    following [perform_actions] raises [TypeError] at its first projection,
    before any action on the page. *)
Theorem border_parsing (self : ImageAutomation) (b : Browser) :
  "uploaded-image" ∈ page_classes b ->
  exists self',
    find_image_element self b = (inr self', b)
    /\ (forall i n,
          px_token (img_border b) i n ->
          (forall j m, px_token (img_border b) j m -> j = i) ->
          border_size self' = Some n)
    /\ ((forall i n, ~ px_token (img_border b) i n) ->
        border_size self' = border_size self
        /\ (border_size self = None ->
            original_axes_points self <> [] ->
            perform_actions self' b = (inl TypeError, b))).
Proof.
  intros Himg. rewrite (find_image_element_ok _ _ Himg).
  eexists. split; [reflexivity |]. cbn [border_size set_geometry]. split.
  - intros i n Ht Huniq. apply (parse_border_leftmost _ _ _ _ Ht).
    intros j m Hj Hjm. apply Huniq in Hjm. lia.
  - intros Hno. rewrite (parse_border_no_token _ _ Hno). split; [reflexivity |].
    intros Hnone Haxes.
    destruct (original_axes_points self) as [|coor l] eqn:El; [contradiction |].
    apply (perform_actions_border_missing _ coor l); [exact El |].
    cbn. now rewrite (parse_border_no_token _ _ Hno).
Qed.

Lemma border_parsing_witness :
  exists self',
    find_image_element example_self (example_page "2px solid rgb(0, 0, 0)")
    = (inr self', example_page "2px solid rgb(0, 0, 0)")
    /\ border_size self' = Some 2.
Proof.
  destruct (border_parsing example_self (example_page "2px solid rgb(0, 0, 0)"))
    as (self' & E & Hone & _).
  - apply example_page_has_image.
  - exists self'. split; [exact E |]. apply (Hone 0%nat 2).
    + apply px_token_iff. split; [vm_compute; lia |].
      eexists. split; vm_compute; reflexivity.
    + intros j m Hjm. apply px_token_iff in Hjm as (Hlen & ds & Hm & _).
      vm_compute in Hlen.
      do 23 (destruct j as [|j]; [first [reflexivity | vm_compute in Hm; discriminate] |]).
      lia.
Defined.

(** * Further properties of the projector *)

Lemma scale_positive (W Sw B : Z) :
  W > 0 -> Sw > 2 * B -> (0 < inject_Z (Sw - 2 * B) / inject_Z W)%Q.
Proof.
  intros HW HS. apply Qlt_shift_div_l.
  - change 0%Q with (inject_Z 0). rewrite <- Zlt_Qlt. lia.
  - rewrite Qmult_0_l. change 0%Q with (inject_Z 0). rewrite <- Zlt_Qlt. lia.
Qed.

(** X2: when the original width is positive and the rendered width exceeds
    twice the border, the projection never inverts an order: a point that
    is not further left (up) is not clicked further left (up). *)
Theorem projection_nondecreasing
    (X0 Y0 X1 Y1 : Q) (W : Z) (loc : option Location) (sz : Size) (B : Z) :
  W > 0 ->
  width sz > 2 * B ->
  exists x y x' y',
    convert_original_coor_to_current (X0, Y0) W loc (Some sz) (Some B) = inr (x, y)
    /\ convert_original_coor_to_current (X1, Y1) W loc (Some sz) (Some B) = inr (x', y')
    /\ ((X0 <= X1)%Q -> (x <= x')%Q)
    /\ ((Y0 <= Y1)%Q -> (y <= y')%Q).
Proof.
  intros HW HS. rewrite !convert_offset by lia.
  eexists _, _, _, _. split; [reflexivity |]. split; [reflexivity |].
  pose proof (Qlt_le_weak _ _ (scale_positive W (width sz) B HW HS)) as Hpos.
  cbn [fst snd]. split; intros Hle.
  - apply Qplus_le_l, Qplus_le_l, Qplus_le_l, Qmult_le_compat_r; [| exact Hpos].
    now apply Qplus_le_l.
  - apply Qplus_le_l, Qplus_le_l, Qplus_le_l, Qmult_le_compat_r; [| exact Hpos].
    now apply Qplus_le_l.
Qed.

Lemma projection_nondecreasing_witness :
  exists x y x' y',
    convert_original_coor_to_current (inject_Z 113, inject_Z 505) 784 None
      (Some (mkSize 1200 900)) (Some 2) = inr (x, y)
    /\ convert_original_coor_to_current (inject_Z 234, inject_Z 505) 784 None
         (Some (mkSize 1200 900)) (Some 2) = inr (x', y')
    /\ ((inject_Z 113 <= inject_Z 234)%Q -> (x <= x')%Q)
    /\ ((inject_Z 505 <= inject_Z 505)%Q -> (y <= y')%Q).
Proof.
  apply (projection_nondecreasing (inject_Z 113) (inject_Z 505)
           (inject_Z 234) (inject_Z 505) 784 None (mkSize 1200 900) 2).
  - reflexivity.
  - reflexivity.
Defined.

(** * Further properties of [perform_actions] *)

(** X3: [perform_actions] on an object whose geometry was never resolved
    (no [find_image_element] since construction) raises [TypeError] at the
    first projection and does nothing to the page. *)
Theorem perform_actions_before_geometry
    (dp wa : string) (obj : UploadedImage) (b : Browser) :
  perform_actions (init dp wa obj) b = (inl TypeError, b).
Proof.
  apply (perform_actions_border_missing _
           (coords (im_xAxis_point1 obj))
           (map coords [im_xAxis_point2 obj; im_yAxis_point1 obj; im_yAxis_point2 obj]));
    reflexivity.
Qed.

(** X4: with the geometry resolved and an original width of zero,
    [perform_actions] raises [ZeroDivisionError] at the first axis point:
    nothing is clicked and nothing is typed. *)
Theorem perform_actions_zero_width
    (self : ImageAutomation) (b : Browser) (sz : Size) (bd : Z) :
  image_size self = Some sz ->
  border_size self = Some bd ->
  original_image_width self = 0 ->
  original_axes_points self <> [] ->
  perform_actions self b = (inl ZeroDivisionError, b).
Proof.
  intros Hsz Hbd HW Haxes. unfold perform_actions.
  destruct (original_axes_points self) as [|coor l]; [contradiction |].
  apply bind_err, for_each_click_err. intros c.
  unfold convert_original_coor_to_current. now rewrite Hsz, Hbd, HW.
Qed.

Lemma perform_actions_zero_width_witness :
  perform_actions
    (set_geometry (init "chromedriver" "http://localhost/"
                     (mkUploadedImage "1.jpg" 0 (PointZ 1 1) (PointZ 2 1)
                        (PointZ 1 1) (PointZ 1 2) 0 1 0 1 []))
       el_uploaded_image (mkLocation 0 0) (mkSize 100 100) "1px solid")
    (example_page "1px solid")
  = (inl ZeroDivisionError, example_page "1px solid").
Proof.
  apply (perform_actions_zero_width _ _ (mkSize 100 100) 1).
  - reflexivity.
  - vm_compute. reflexivity.
  - reflexivity.
  - discriminate.
Defined.

Lemma enter_axis_values_x_missing self b :
  "x-axis-p2" ∉ page_ids b ->
  enter_axis_values self b = (inl NoSuchElementException, b).
Proof.
  intros Hx. unfold enter_axis_values.
  now rewrite (bind_err _ _ _ _ _ (find_element_err ID _ _ Hx)).
Qed.

Lemma enter_axis_values_y_missing self b :
  "x-axis-p2" ∈ page_ids b ->
  "y-axis-p2" ∉ page_ids b ->
  exists b',
    enter_axis_values self b = (inl NoSuchElementException, b')
    /\ log b' = log b ++ [Clear el_x_axis_p2;
                          SendKeys el_x_axis_p2 (str (xAxisValue_p2 self))]
    /\ input_value b' "x-axis-p2" = str (xAxisValue_p2 self).
Proof.
  intros Hx Hy. unfold enter_axis_values.
  rewrite (bind_ok _ _ _ _ _ (find_element_ok ID _ _ Hx)).
  rewrite (bind_ok (clear _) _ _ _ _ eq_refl).
  rewrite (bind_ok (send_keys _ _) _ _ _ _ eq_refl).
  match goal with |- context [mbind _ (find_element ID ?v) ?b0] =>
    rewrite (bind_err _ _ _ _ _ (find_element_err ID v b0 Hy))
  end.
  eexists. split; [reflexivity |]. cbn. split.
  - now rewrite <- !app_assoc.
  - unfold input_value. cbn. rewrite lookup_insert_eq. cbn.
    now rewrite lookup_insert_eq.
Qed.

(** X5: if the page has no x-axis input, [perform_actions] clicks the axis
    reference points, then raises [NoSuchElementException]: nothing is
    typed and no data point is clicked. *)
Theorem perform_actions_x_input_missing
    (self : ImageAutomation) (b : Browser) (sz : Size) (bd : Z) :
  image_size self = Some sz ->
  border_size self = Some bd ->
  original_image_width self <> 0 ->
  "x-axis-p2" ∉ page_ids b ->
  exists b',
    perform_actions self b = (inl NoSuchElementException, b')
    /\ log b' = log b
         ++ click_actions (image_element self) (original_image_width self) sz bd
              (original_axes_points self)
    /\ inputs b' = inputs b.
Proof.
  intros Hsz Hbd HW Hx. unfold perform_actions.
  rewrite (bind_ok _ _ _ _ _ (for_each_click_ok _ _ _ _ _ Hsz Hbd HW)). cbv beta.
  match goal with |- context [mbind _ (enter_axis_values self) ?b0] =>
    rewrite (bind_err _ _ _ _ _ (enter_axis_values_x_missing self b0 Hx))
  end.
  eexists. split; [reflexivity |]. split; reflexivity.
Qed.

Lemma perform_actions_x_input_missing_witness :
  exists b',
    perform_actions
      (set_geometry example_self el_uploaded_image (mkLocation 0 0)
         (mkSize 784 600) "2px solid")
      (mkBrowser ∅ {["uploaded-image"]} true (mkLocation 0 0) (mkSize 784 600)
         "2px solid" "/" ∅ [])
    = (inl NoSuchElementException, b')
    /\ length (log b') = 4%nat
    /\ inputs b' = ∅.
Proof.
  destruct (perform_actions_x_input_missing
              (set_geometry example_self el_uploaded_image (mkLocation 0 0)
                 (mkSize 784 600) "2px solid")
              (mkBrowser ∅ {["uploaded-image"]} true (mkLocation 0 0) (mkSize 784 600)
                 "2px solid" "/" ∅ [])
              (mkSize 784 600) 2) as (b' & E & Hlog & Hin).
  - reflexivity.
  - vm_compute. reflexivity.
  - discriminate.
  - cbn. set_solver.
  - exists b'. split; [exact E |]. split; [now rewrite Hlog | exact Hin].
Defined.

(** X6: if the page has the x-axis input and no y-axis input,
    [perform_actions] clicks the axis reference points, clears the x-axis
    input and types the x-axis value into it, then raises
    [NoSuchElementException]: no data point is clicked. *)
Theorem perform_actions_y_input_missing
    (self : ImageAutomation) (b : Browser) (sz : Size) (bd : Z) :
  image_size self = Some sz ->
  border_size self = Some bd ->
  original_image_width self <> 0 ->
  "x-axis-p2" ∈ page_ids b ->
  "y-axis-p2" ∉ page_ids b ->
  exists b',
    perform_actions self b = (inl NoSuchElementException, b')
    /\ log b' = log b
         ++ click_actions (image_element self) (original_image_width self) sz bd
              (original_axes_points self)
         ++ [Clear el_x_axis_p2; SendKeys el_x_axis_p2 (str (xAxisValue_p2 self))]
    /\ input_value b' "x-axis-p2" = str (xAxisValue_p2 self).
Proof.
  intros Hsz Hbd HW Hx Hy. unfold perform_actions.
  rewrite (bind_ok _ _ _ _ _ (for_each_click_ok _ _ _ _ _ Hsz Hbd HW)). cbv beta.
  match goal with |- context [mbind _ (enter_axis_values self) ?b0] =>
    destruct (enter_axis_values_y_missing self b0 Hx Hy) as (b1 & E & Hlog & Hin)
  end.
  rewrite (bind_err _ _ _ _ _ E).
  exists b1. split; [reflexivity |]. split; [| exact Hin].
  rewrite Hlog. cbn. now rewrite <- !app_assoc.
Qed.

Lemma perform_actions_y_input_missing_witness :
  exists b',
    perform_actions
      (set_geometry example_self el_uploaded_image (mkLocation 0 0)
         (mkSize 784 600) "2px solid")
      (mkBrowser {["x-axis-p2"]} {["uploaded-image"]} true (mkLocation 0 0)
         (mkSize 784 600) "2px solid" "/" ∅ [])
    = (inl NoSuchElementException, b')
    /\ length (log b') = 6%nat
    /\ input_value b' "x-axis-p2" = "10".
Proof.
  destruct (perform_actions_y_input_missing
              (set_geometry example_self el_uploaded_image (mkLocation 0 0)
                 (mkSize 784 600) "2px solid")
              (mkBrowser {["x-axis-p2"]} {["uploaded-image"]} true (mkLocation 0 0)
                 (mkSize 784 600) "2px solid" "/" ∅ [])
              (mkSize 784 600) 2) as (b' & E & Hlog & Hin).
  - reflexivity.
  - vm_compute. reflexivity.
  - discriminate.
  - cbn. set_solver.
  - cbn. set_solver.
  - exists b'. split; [exact E |]. split; [now rewrite Hlog | exact Hin].
Defined.

(** * What computations emit *)

Lemma emits_bind {A B : Type} (P : action -> Prop) (m : M A) (k : A -> M B) :
  emits P m -> (forall a, emits P (k a)) -> emits P (m ≫= k).
Proof.
  intros Hm Hk b. destruct (Hm b) as (l1 & H1 & HP1).
  unfold mbind, M_bind. destruct (m b) as [[e | a] b1]; cbn [snd] in *.
  - exists l1. now split.
  - destruct (Hk a b1) as (l2 & H2 & HP2). exists (l1 ++ l2). split.
    + rewrite H2, H1. now rewrite app_assoc.
    + now apply Forall_app.
Qed.

Lemma emits_silent {A : Type} (P : action -> Prop) (m : M A) :
  (forall b, log (m b).2 = log b) -> emits P m.
Proof. intros H b. exists []. rewrite app_nil_r. split; [apply H | constructor]. Qed.

Lemma emits_emit (P : action -> Prop) a : P a -> emits P (emit a).
Proof. intros Ha b. exists [a]. split; [reflexivity | now repeat constructor]. Qed.

Lemma emits_find_element (P : action -> Prop) by' v : emits P (find_element by' v).
Proof.
  apply emits_silent. intros b. unfold find_element, ask, mbind, M_bind.
  now destruct (bool_decide _).
Qed.

Lemma emits_send_keys (P : action -> Prop) el text :
  P (SendKeys el text) -> emits P (send_keys el text).
Proof.
  intros H. apply emits_bind; [now apply emits_emit |].
  intros _. now apply emits_silent.
Qed.

Lemma emits_clear (P : action -> Prop) el : P (Clear el) -> emits P (clear el).
Proof.
  intros H. apply emits_bind; [now apply emits_emit |].
  intros _. now apply emits_silent.
Qed.

Lemma emits_for_each {A : Type} (P : action -> Prop) (l : list A) body :
  (forall a, emits P (body a)) -> emits P (for_each l body).
Proof.
  intros H. induction l as [|a l IH]; [now apply emits_silent |].
  simpl. apply emits_bind; [apply H | intros _; exact IH].
Qed.

Lemma emits_click_point (P : action -> Prop) self coor :
  (forall x y, P (Click (image_element self) x y)) -> emits P (click_point self coor).
Proof.
  intros H. apply emits_bind; [now apply emits_silent |].
  intros xy. apply emits_emit, H.
Qed.

Lemma emits_accept_alert (P : action -> Prop) : P AcceptAlert -> emits P accept_alert.
Proof.
  intros H b. unfold accept_alert, ask, mbind, M_bind.
  destruct (alert_appears b).
  - exists [AcceptAlert]. split; [reflexivity | now repeat constructor].
  - exists []. rewrite app_nil_r. split; [reflexivity | constructor].
Qed.

Lemma emits_find_image_element (P : action -> Prop) self :
  emits P (find_image_element self).
Proof.
  apply emits_bind; [apply emits_find_element |].
  intros el. now apply emits_silent.
Qed.

Lemma emits_perform_actions (P : action -> Prop) self :
  (forall a, session_open a -> P a) -> emits P (perform_actions self).
Proof.
  intros HP. unfold perform_actions, enter_axis_values.
  repeat first
    [ apply emits_for_each; intros ?
    | apply emits_click_point; intros ? ?
    | apply emits_find_element
    | apply emits_clear
    | apply emits_send_keys
    | apply HP; exact I
    | apply emits_bind; [| intros ?] ].
Qed.

Lemma fail_emits_bind {A B : Type} (P : action -> Prop) (m : M A) (k : A -> M B) :
  emits P m -> (forall a, fail_emits P (k a)) -> fail_emits P (m ≫= k).
Proof.
  intros Hm Hk b e. destruct (Hm b) as (l1 & H1 & HP1).
  unfold mbind, M_bind. destruct (m b) as [[e1 | a] b1]; cbn [fst snd] in *.
  - intros _. exists l1. now split.
  - intros Hf. destruct (Hk a b1 e Hf) as (l2 & H2 & HP2).
    exists (l1 ++ l2). split.
    + rewrite H2, H1. now rewrite app_assoc.
    + now apply Forall_app.
Qed.

Lemma forall_on_image_click_actions W sz bd l :
  Forall on_image (click_actions (Some el_uploaded_image) W sz bd l).
Proof. induction l as [|c l IH]; constructor; [reflexivity | exact IH]. Qed.

Lemma some_token_iff_parsed style :
  (exists i n, px_token style i n) <-> exists bd, parse_border None style = Some bd.
Proof.
  unfold parse_border, re_search. split.
  - intros (i & n & ds & Ht & _).
    destruct (search_from None _) as [ds0|] eqn:E; [now eexists |].
    now destruct (search_from_None _ _ E _ _ Ht).
  - intros (bd & H).
    destruct (search_from None _) as [ds0|] eqn:E; [| discriminate].
    apply search_from_Some in E as (i & Ht & _).
    exists i, (int_of_digits ds0), ds0. now split.
Qed.

Section FurtherRunProperties.

Variable os_path_join : string -> string -> string.

(** X7: if the page has no file input, [run] raises
    [NoSuchElementException] having only opened the page, maximised the
    window and slept: nothing is uploaded. *)
Theorem run_without_file_input (self : ImageAutomation) (b : Browser) :
  "file-upload" ∉ page_ids b ->
  exists b',
    run os_path_join self b = (inl NoSuchElementException, b')
    /\ log b' = log b ++ [Get (web_address self); MaximizeWindow; Sleep 1]
    /\ inputs b' = inputs b.
Proof.
  intros Hup. unfold run.
  do 3 rewrite (bind_ok _ _ _ _ _ (emit_eq _ _)).
  match goal with |- context [mbind _ (find_element ID ?v) ?b0] =>
    rewrite (bind_err _ _ _ _ _ (find_element_err ID v b0 Hup))
  end.
  eexists. split; [reflexivity |]. cbn. split; [| reflexivity].
  now rewrite <- !app_assoc.
Qed.

(** X8: if the upload alert does not show up within the wait, [run] raises
    [TimeoutException] right after sending the file path: no alert is
    accepted and nothing is clicked. *)
Theorem run_alert_timeout (self : ImageAutomation) (b : Browser) :
  "file-upload" ∈ page_ids b ->
  alert_appears b = false ->
  exists b',
    run os_path_join self b = (inl TimeoutException, b')
    /\ log b' = log b ++ [Get (web_address self); MaximizeWindow; Sleep 1;
                          SendKeys el_file_upload
                            (os_path_join (os_getcwd b) (pic_name self))].
Proof.
  intros Hup Halert. unfold run.
  do 3 rewrite (bind_ok _ _ _ _ _ (emit_eq _ _)).
  match goal with |- context [mbind _ (find_element ID ?v) ?b0] =>
    rewrite (bind_ok _ _ _ _ _ (find_element_ok ID v b0 Hup))
  end.
  rewrite (bind_ok ask _ _ _ _ eq_refl).
  unfold upload_image. rewrite (bind_ok (send_keys _ _) _ _ _ _ eq_refl).
  match goal with |- context [mbind _ accept_alert ?b0] =>
    rewrite (bind_err _ _ _ _ _ (accept_alert_err b0 Halert))
  end.
  eexists. split; [reflexivity |]. cbn. now rewrite <- !app_assoc.
Qed.

(** X9: if the uploaded image element is not in the page after the alert,
    [run] raises [NoSuchElementException] right after accepting the alert:
    nothing is clicked or typed. *)
Theorem run_image_missing (self : ImageAutomation) (b : Browser) :
  "file-upload" ∈ page_ids b ->
  alert_appears b = true ->
  "uploaded-image" ∉ page_classes b ->
  exists b',
    run os_path_join self b = (inl NoSuchElementException, b')
    /\ log b' = log b ++ [Get (web_address self); MaximizeWindow; Sleep 1;
                          SendKeys el_file_upload
                            (os_path_join (os_getcwd b) (pic_name self));
                          AcceptAlert].
Proof.
  intros Hup Halert Himg. unfold run.
  do 3 rewrite (bind_ok _ _ _ _ _ (emit_eq _ _)).
  match goal with |- context [mbind _ (find_element ID ?v) ?b0] =>
    rewrite (bind_ok _ _ _ _ _ (find_element_ok ID v b0 Hup))
  end.
  rewrite (bind_ok ask _ _ _ _ eq_refl).
  unfold upload_image. rewrite (bind_ok (send_keys _ _) _ _ _ _ eq_refl).
  match goal with |- context [mbind _ accept_alert ?b0] =>
    rewrite (bind_ok _ _ _ _ _ (accept_alert_ok b0 Halert))
  end.
  match goal with |- context [mbind _ (find_image_element ?s) ?b0] =>
    rewrite (bind_err _ _ _ _ _ (find_image_element_err s b0 Himg))
  end.
  eexists. split; [reflexivity |]. cbn. now rewrite <- !app_assoc.
Qed.

(** X10: when [run] stops on a failed element lookup, on the alert wait or
    in a projection ([NoSuchElementException], [TimeoutException],
    [TypeError], [ZeroDivisionError]), it has reached neither the operator
    prompt nor [driver.quit()]: the browser session is left open.  What
    [input] and [driver.quit()] themselves may raise is not covered. *)
Theorem run_failure_leaves_session_open
    (self : ImageAutomation) (b : Browser) (e : exn) :
  (run os_path_join self b).1 = inl e ->
  exists l,
    log (run os_path_join self b).2 = log b ++ l /\ Forall session_open l.
Proof.
  revert b e. change (fail_emits session_open (run os_path_join self)).
  unfold run, upload_image.
  repeat first
    [ apply emits_emit; exact I
    | apply emits_find_element
    | apply emits_send_keys; exact I
    | apply emits_accept_alert; exact I
    | apply emits_find_image_element
    | apply emits_perform_actions; intros ? ?; assumption
    | apply (emits_silent session_open ask); reflexivity
    | match goal with
      | |- fail_emits _ (emit (Input _) ≫= _) =>
          let H := fresh in intros ? ? H; discriminate H
      end
    | apply fail_emits_bind; [| intros ?] ].
Qed.

End FurtherRunProperties.

Lemma run_without_file_input_witness :
  exists b',
    run example_join example_self
      (mkBrowser ∅ ∅ true (mkLocation 0 0) (mkSize 784 600) "2px solid" "/" ∅ [])
    = (inl NoSuchElementException, b')
    /\ log b' = [] ++ [Get "http://localhost/"; MaximizeWindow; Sleep 1]
    /\ inputs b' = ∅.
Proof.
  apply (run_without_file_input example_join example_self
           (mkBrowser ∅ ∅ true (mkLocation 0 0) (mkSize 784 600) "2px solid" "/" ∅ [])).
  cbn. set_solver.
Defined.

Lemma run_alert_timeout_witness :
  exists b',
    run example_join example_self
      (mkBrowser {["file-upload"]} ∅ false (mkLocation 0 0) (mkSize 784 600)
         "2px solid" "/srv" ∅ [])
    = (inl TimeoutException, b')
    /\ log b' = [] ++ [Get "http://localhost/"; MaximizeWindow; Sleep 1;
                       SendKeys el_file_upload (example_join "/srv" "1.jpg")].
Proof.
  apply (run_alert_timeout example_join example_self
           (mkBrowser {["file-upload"]} ∅ false (mkLocation 0 0) (mkSize 784 600)
              "2px solid" "/srv" ∅ [])).
  - cbn. set_solver.
  - reflexivity.
Defined.

Lemma run_image_missing_witness :
  exists b',
    run example_join example_self
      (mkBrowser {["file-upload"]} ∅ true (mkLocation 0 0) (mkSize 784 600)
         "2px solid" "/srv" ∅ [])
    = (inl NoSuchElementException, b')
    /\ log b' = [] ++ [Get "http://localhost/"; MaximizeWindow; Sleep 1;
                       SendKeys el_file_upload (example_join "/srv" "1.jpg");
                       AcceptAlert].
Proof.
  apply (run_image_missing example_join example_self
           (mkBrowser {["file-upload"]} ∅ true (mkLocation 0 0) (mkSize 784 600)
              "2px solid" "/srv" ∅ [])).
  - cbn. set_solver.
  - reflexivity.
  - cbn. set_solver.
Defined.

Lemma run_failure_leaves_session_open_witness :
  exists l,
    log (run example_join example_self (example_page "medium none")).2
    = log (example_page "medium none") ++ l
    /\ Forall session_open l.
Proof.
  apply (run_failure_leaves_session_open example_join example_self
           (example_page "medium none") TypeError).
  vm_compute. reflexivity.
Defined.

Section SuccessfulRuns.

Variable os_path_join : string -> string -> string.
Variables dp wa : string.

(** X11: a run on a freshly constructed object succeeds only if the page
    has the file input, the alert shows up, the image element and the two
    axis inputs exist, the original width is not zero and the computed
    border style holds an integer-px token. *)
Theorem run_success_requires (obj : UploadedImage) (b : Browser) :
  (run os_path_join (init dp wa obj) b).1 = inr tt ->
  page_ready b
  /\ im_image_width obj <> 0
  /\ exists i n, px_token (img_border b) i n.
Proof.
  intros H.
  destruct (run_success_inv _ _ _ (init_axes_nonempty dp wa obj) H)
    as (Hready & HW & Hbd).
  split; [exact Hready |]. split; [exact HW |].
  now apply some_token_iff_parsed.
Qed.

(** X12: in a successful run every click is aimed at the uploaded image
    element, and there are four clicks more than there are data points. *)
Theorem run_clicks_only_the_image (obj : UploadedImage) (b : Browser) :
  (run os_path_join (init dp wa obj) b).1 = inr tt ->
  exists l,
    log (run os_path_join (init dp wa obj) b).2 = log b ++ l
    /\ Forall on_image l
    /\ length (clicks l) = (4 + length (im_clickedPoints obj))%nat.
Proof.
  intros H.
  destruct (run_success_inv _ _ _ (init_axes_nonempty dp wa obj) H)
    as (Hready & HW & bd & Hbd).
  destruct (run_ok os_path_join (init dp wa obj) b bd Hready HW Hbd) as (b' & E & Hlog).
  rewrite E. cbn [snd]. eexists. split; [exact Hlog |]. split.
  - repeat (apply Forall_app; split);
      first [ apply forall_on_image_click_actions
            | repeat constructor ].
  - rewrite !clicks_app, !clicks_click_actions.
    cbn [clicks omap list_omap app]. rewrite app_nil_r, length_app, !length_map.
    cbn [init original_axes_points clickedPoints]. rewrite !length_map. reflexivity.
Qed.

End SuccessfulRuns.

Lemma run_success_requires_witness :
  page_ready (example_page "2px solid rgb(0, 0, 0)")
  /\ im_image_width initializeImageObj <> 0
  /\ exists i n, px_token "2px solid rgb(0, 0, 0)" i n.
Proof.
  apply (run_success_requires example_join "chromedriver" "http://localhost/"
           initializeImageObj (example_page "2px solid rgb(0, 0, 0)")).
  vm_compute. reflexivity.
Defined.

Lemma run_clicks_only_the_image_witness :
  exists l,
    log (run example_join example_self (example_page "2px solid rgb(0, 0, 0)")).2
    = log (example_page "2px solid rgb(0, 0, 0)") ++ l
    /\ Forall on_image l
    /\ length (clicks l) = (4 + length (im_clickedPoints initializeImageObj))%nat.
Proof.
  apply (run_clicks_only_the_image example_join "chromedriver" "http://localhost/"
           initializeImageObj (example_page "2px solid rgb(0, 0, 0)")).
  vm_compute. reflexivity.
Defined.

(** X13: whatever the inputs held before, after the axis-value entry step
    the x-axis input holds the x value followed by the y value, the y-axis
    input is empty, and every other input is as it was. *)
Theorem axis_entry_overwrites (self : ImageAutomation) (b : Browser) :
  "x-axis-p2" ∈ page_ids b ->
  "y-axis-p2" ∈ page_ids b ->
  exists b',
    enter_axis_values self b = (inr tt, b')
    /\ input_value b' "x-axis-p2"
       = str (xAxisValue_p2 self) +:+ str (yAxisValue_p2 self)
    /\ input_value b' "y-axis-p2" = ""
    /\ forall id, id <> "x-axis-p2" -> id <> "y-axis-p2" ->
                  input_value b' id = input_value b id.
Proof.
  intros Hx Hy. unfold enter_axis_values.
  rewrite (bind_ok _ _ _ _ _ (find_element_ok ID _ _ Hx)).
  unfold clear, send_keys, set_input, emit, find_element, ask, mbind, M_bind.
  cbn. rewrite bool_decide_eq_true_2 by exact Hy. cbn.
  eexists. split; [reflexivity |]. unfold input_value. cbn.
  split; [| split].
  - rewrite lookup_insert_eq. cbn. rewrite lookup_insert_ne by discriminate.
    rewrite lookup_insert_eq. cbn. rewrite lookup_insert_eq. reflexivity.
  - rewrite lookup_insert_ne by discriminate. now rewrite lookup_insert_eq.
  - intros id Hidx Hidy.
    rewrite !lookup_insert_ne by congruence. reflexivity.
Qed.

Lemma axis_entry_overwrites_witness :
  exists b',
    enter_axis_values example_self
      (mkBrowser {["x-axis-p2"; "y-axis-p2"]} ∅ true (mkLocation 0 0) (mkSize 1 1)
         "" "/" (<["y-axis-p2" := "7"]> (<["x-axis-p2" := "3"]> ∅)) [])
    = (inr tt, b')
    /\ input_value b' "x-axis-p2" = "10100"
    /\ input_value b' "y-axis-p2" = "".
Proof.
  destruct (axis_entry_overwrites example_self
              (mkBrowser {["x-axis-p2"; "y-axis-p2"]} ∅ true (mkLocation 0 0)
                 (mkSize 1 1) "" "/"
                 (<["y-axis-p2" := "7"]> (<["x-axis-p2" := "3"]> ∅)) []))
    as (b' & E & Hxv & Hyv & _).
  - cbn. set_solver.
  - cbn. set_solver.
  - exists b'. split; [exact E |]. split; [exact Hxv | exact Hyv].
Defined.

(** * Further properties of border parsing *)

Lemma digit_value_range c : is_digit c = true -> 0 <= digit_value c <= 9.
Proof.
  unfold is_digit, digit_value. intros H. apply andb_prop in H as [H1 H2].
  apply Nat.leb_le in H1, H2. lia.
Qed.

Lemma fold_digits_nonneg ds acc :
  Forall (fun c => is_digit c = true) ds -> 0 <= acc ->
  0 <= fold_left (fun acc c => 10 * acc + digit_value c) ds acc.
Proof.
  intros H. revert acc. induction H as [|c ds Hc _ IH]; intros acc Hacc; [exact Hacc |].
  simpl. apply IH. pose proof (digit_value_range c Hc). lia.
Qed.

Lemma list_ascii_of_string_app s1 s2 :
  String.list_ascii_of_string (s1 +:+ s2)
  = String.list_ascii_of_string s1 ++ String.list_ascii_of_string s2.
Proof. induction s1 as [|c s1 IH]; [reflexivity |]. simpl. now rewrite IH. Qed.

Lemma uint_digits d :
  Forall (fun c => is_digit c = true)
         (String.list_ascii_of_string (NilEmpty.string_of_uint d)).
Proof. induction d; simpl; constructor; auto. Qed.

Lemma uint_value_acc d acc :
  fold_left (fun acc c => 10 * acc + digit_value c)
            (String.list_ascii_of_string (NilEmpty.string_of_uint d)) (Z.pos acc)
  = Z.pos (Pos.of_uint_acc d acc).
Proof.
  revert acc. induction d; intros acc; [reflexivity | ..];
    cbn [NilEmpty.string_of_uint String.list_ascii_of_string fold_left Pos.of_uint_acc];
    rewrite <- IHd; f_equal.
  all: match goal with
       | |- context [digit_value ?c] =>
           let v := eval vm_compute in (digit_value c) in
           change (digit_value c) with v
       end; lia.
Qed.

Lemma uint_value d :
  int_of_digits (String.list_ascii_of_string (NilEmpty.string_of_uint d))
  = Z.of_N (Pos.of_uint d).
Proof.
  unfold int_of_digits. induction d; [reflexivity | ..];
    cbn [NilEmpty.string_of_uint String.list_ascii_of_string fold_left Pos.of_uint];
    first [ exact IHd | apply (uint_value_acc d 1) | idtac ].
  all: match goal with
       | |- fold_left _ _ ?z = _ =>
           let p := eval vm_compute in z in
           change z with p; rewrite uint_value_acc; reflexivity
       end.
Qed.

Lemma str_digits n :
  0 <= n ->
  let ds := String.list_ascii_of_string (str n) in
  ds <> [] /\ Forall (fun c => is_digit c = true) ds /\ int_of_digits ds = n.
Proof.
  intros Hn. destruct n as [|p|p]; [| | lia].
  - cbn. split; [discriminate |]. split; [repeat constructor | reflexivity].
  - unfold str. cbn [Z.to_int NilEmpty.string_of_int]. split; [| split].
    + pose proof (Unsigned.to_uint_nonnil p) as Hnil.
      destruct (Pos.to_uint p); [contradiction | ..]; discriminate.
    + apply uint_digits.
    + rewrite uint_value, Unsigned.of_to. reflexivity.
Qed.

(** X14: a border size that [find_image_element] stores on a freshly
    constructed object is never negative and is the integer of the leftmost
    integer-px token of the computed style. *)
Theorem parsed_border_sound
    (self self' : ImageAutomation) (b b' : Browser) (n : Z) :
  border_size self = None ->
  find_image_element self b = (inr self', b') ->
  border_size self' = Some n ->
  0 <= n
  /\ exists i, px_token (img_border b) i n
               /\ forall j m, (j < i)%nat -> ~ px_token (img_border b) j m.
Proof.
  intros Hnone Hfind Hbd.
  destruct (decide ("uploaded-image" ∈ page_classes b)) as [Himg | Himg].
  2:{ rewrite (find_image_element_err _ _ Himg) in Hfind. discriminate. }
  rewrite (find_image_element_ok _ _ Himg) in Hfind.
  injection Hfind as <- <-. cbn in Hbd. rewrite Hnone in Hbd.
  unfold parse_border, re_search in Hbd.
  destruct (search_from None _) as [ds|] eqn:E; [| discriminate].
  injection Hbd as <-.
  apply search_from_Some in E as (i & Ht & Hleft). split.
  - destruct Ht as (pre & post & _ & _ & _ & Hall & _).
    now apply fold_digits_nonneg.
  - exists i. split; [now exists ds |].
    intros j m Hj (ds' & Ht' & _). exact (Hleft j ds' Hj Ht').
Qed.

Lemma parsed_border_sound_witness :
  0 <= 3
  /\ exists i, px_token "thick 3px 5px" i 3
               /\ forall j m, (j < i)%nat -> ~ px_token "thick 3px 5px" j m.
Proof.
  apply (parsed_border_sound example_self
           (set_geometry example_self el_uploaded_image (mkLocation 10 20)
              (mkSize 784 600) "thick 3px 5px")
           (example_page "thick 3px 5px") (example_page "thick 3px 5px") 3).
  - reflexivity.
  - apply find_image_element_ok, example_page_has_image.
  - vm_compute. reflexivity.
Defined.

(** X15: the text of a non-negative integer followed by [px] at the start
    of the computed style, and then the end of the string or a non-word
    character, parses back to that integer, whatever follows. *)
Theorem parse_border_of_str (old : option Z) (n : Z) (rest : string) :
  0 <= n ->
  is_word_opt (head (String.list_ascii_of_string rest)) = false ->
  parse_border old (str n +:+ "px" +:+ rest) = Some n.
Proof.
  intros Hn Hrest. destruct (str_digits n Hn) as (Hne & Hall & Hval).
  apply (parse_border_leftmost _ _ 0%nat); [| intros; lia].
  exists (String.list_ascii_of_string (str n)). split; [| now rewrite Hval].
  exists [], (String.list_ascii_of_string rest).
  rewrite !list_ascii_of_string_app. repeat split; assumption.
Qed.

Lemma parse_border_of_str_witness :
  parse_border None (str 12 +:+ "px" +:+ " solid rgb(0, 0, 0)") = Some 12.
Proof.
  apply (parse_border_of_str None 12 " solid rgb(0, 0, 0)").
  - lia.
  - reflexivity.
Defined.

Lemma take_digits_prefix (a pre tl tl' : list ascii) :
  a ++ tl = pre ++ tl' -> (length pre <= length a)%nat -> pre = take (length pre) a.
Proof.
  intros H Hlen.
  rewrite <- (take_app_le a tl) by exact Hlen. rewrite H.
  now rewrite take_app_length.
Qed.

Lemma digits_then_stop (a ds : list ascii) (c c' : ascii) (r r' : list ascii) :
  Forall (fun x => is_digit x = true) a ->
  Forall (fun x => is_digit x = true) ds ->
  is_digit c = false -> is_digit c' = false ->
  a ++ c :: r = ds ++ c' :: r' -> c = c'.
Proof.
  intros Ha. revert ds. induction Ha as [|x a Hx _ IH]; intros ds Hds Hc Hc' H.
  - destruct ds as [|d ds]; simpl in H.
    + now injection H.
    + injection H as -> _. inversion Hds; congruence.
  - destruct ds as [|d ds]; simpl in H.
    + injection H as -> _. congruence.
    + injection H as _ H. inversion Hds; subst. now apply (IH ds).
Qed.

(** X16: for a computed style that starts with a fractional width, digits,
    a dot, digits, [px], the stored border is the integer of the digits
    after the dot: the integer part is not followed by [px] and the dot is
    a word boundary. *)
Theorem parse_border_fractional_width
    (old : option Z) (a f rest : list ascii) :
  Forall (fun c => is_digit c = true) a ->
  Forall (fun c => is_digit c = true) f ->
  f <> [] ->
  is_word_opt (head rest) = false ->
  parse_border old
    (String.string_of_list_ascii (a ++ "."%char :: f ++ "p"%char :: "x"%char :: rest))
  = Some (int_of_digits f).
Proof.
  intros Ha Hf Hne Hrest.
  apply (parse_border_leftmost _ _ (length a + 1)%nat).
  - exists f. split; [| reflexivity].
    rewrite String.list_ascii_of_string_of_list_ascii.
    exists (a ++ ["."%char]), rest. rewrite <- !app_assoc. simpl.
    repeat split; try assumption.
    + rewrite length_app. reflexivity.
    + unfold before. now rewrite last_snoc.
  - intros j m Hj (ds & Ht & _). rewrite String.list_ascii_of_string_of_list_ascii in Ht.
    destruct Ht as (pre & post & Heq & Hlen & Hdne & Hds & Hbefore & _).
    assert (Hpre : pre = take (length pre) a).
    { apply (take_digits_prefix a pre _ _ Heq). lia. }
    destruct (last pre) as [c|] eqn:Hlast.
    + unfold before in Hbefore. rewrite Hlast in Hbefore. simpl in Hbefore.
      assert (Hc : is_digit c = true).
      { apply last_Some_elem_of in Hlast. rewrite Hpre in Hlast.
        apply elem_of_take in Hlast as (k & Hk & _).
        rewrite Forall_lookup in Ha. exact (Ha k c Hk). }
      rewrite (is_digit_word c Hc) in Hbefore. discriminate.
    + apply last_None in Hlast. subst pre. simpl in Heq.
      assert (Habs : "."%char = "p"%char).
      { apply (digits_then_stop a ds "."%char "p"%char
                 (f ++ "p"%char :: "x"%char :: rest) ("x"%char :: post) Ha Hds);
          [reflexivity | reflexivity | exact Heq]. }
      discriminate Habs.
Qed.

Lemma parse_border_fractional_width_witness :
  parse_border None "1.5px solid rgb(0, 0, 0)" = Some 5.
Proof.
  apply (parse_border_fractional_width None ["1"%char] ["5"%char]
           (String.list_ascii_of_string " solid rgb(0, 0, 0)")).
  - repeat constructor.
  - repeat constructor.
  - discriminate.
  - reflexivity.
Defined.

Lemma parse_border_twice old style :
  parse_border (parse_border old style) style = parse_border old style.
Proof. unfold parse_border. now destruct (re_search style). Qed.

(** X17: resolving the geometry a second time on an unchanged page changes
    nothing: [find_image_element] applied to its own result returns that
    result. *)
Theorem find_image_element_idempotent (self : ImageAutomation) (b : Browser) :
  "uploaded-image" ∈ page_classes b ->
  exists self',
    find_image_element self b = (inr self', b)
    /\ find_image_element self' b = (inr self', b).
Proof.
  intros Himg. rewrite (find_image_element_ok _ _ Himg).
  eexists. split; [reflexivity |].
  rewrite (find_image_element_ok _ _ Himg). f_equal. f_equal.
  unfold set_geometry. cbn. now rewrite parse_border_twice.
Qed.

Lemma find_image_element_idempotent_witness :
  exists self',
    find_image_element example_self (example_page "2px solid") 
    = (inr self', example_page "2px solid")
    /\ find_image_element self' (example_page "2px solid")
       = (inr self', example_page "2px solid").
Proof.
  apply (find_image_element_idempotent example_self (example_page "2px solid")).
  apply example_page_has_image.
Defined.
